(** * NewsFlow-Bot: feed ingestion and dispatch engine

    A shallow embedding of the packaged engine ([src/newsflow]) and the
    properties of its store, subscription service, translation cache and
    dispatcher.

    Conventions of the embedding
    - Python [int] is [Z]; [str] is [string]; [T | None] is [option T].
    - A [datetime] is a [Z] (seconds on the UTC time line); the instant read
      by [datetime.now] / [time.time] is an explicit argument or is read
      from the world.
    - A database table is the list of its rows in insertion order.
    - The outside world (HTTP servers, chat platforms, translation
      back ends, the passing of time) is a state of an abstract type that
      every awaiting call threads through. *)

From Stdlib Require Import ZArith List String Ascii Bool Lia Sorted DecimalString.
From Stdlib Require Import Floats Uint63 Permutation.
Import ListNotations.

Open Scope string_scope.
Open Scope list_scope.
Open Scope Z_scope.

Set Implicit Arguments.

(** ** Python helpers *)

(** Truth value of a [str | None]: [None] and the empty string are false. *)
Definition truthy (o : option string) : bool :=
  match o with
  | None => false
  | Some s => negb (String.eqb s "")
  end.

(** [a or b] on [str | None] values. *)
Definition or_else (a b : option string) : option string :=
  if truthy a then a else b.

(** [a or ""] where the result is used as a [str]. *)
Definition or_empty (a : option string) : string :=
  match a with
  | Some s => s
  | None => ""
  end.

(** [str(n)] for an [int]. *)
Definition str_of_int (n : Z) : string := NilZero.string_of_int (Z.to_int n).

(** [str(x)] inside an f-string for a [str | None]. *)
Definition str_of_opt (o : option string) : string :=
  match o with
  | Some s => s
  | None => "None"
  end.

Definition opt_string_eqb (a b : option string) : bool :=
  match a, b with
  | Some x, Some y => String.eqb x y
  | None, None => true
  | _, _ => false
  end.

(** ** models/feed.py, models/subscription.py, models/base.py *)

Module Models.

(** [Feed]; [id], [created_at] and [updated_at] come from [Base]. *)
Record Feed := {
  feed_id_ : Z;
  feed_created_at : Z;
  feed_updated_at : Z;
  url : string;
  feed_title : option string;
  feed_description : option string;
  site_url : option string;
  feed_is_active : bool;
  error_count : Z;
  last_error : option string;
  etag : option string;
  last_modified : option string;
  last_fetched_at : option Z;
  last_successful_fetch_at : option Z
}.

(** [Feed.mark_success]; [now] is [datetime.now(timezone.utc)]. *)
Definition mark_success (now : Z) (etag' last_modified' : option string)
           (self : Feed) : Feed :=
  {| feed_id_ := feed_id_ self;
     feed_created_at := feed_created_at self;
     feed_updated_at := feed_updated_at self;
     url := url self;
     feed_title := feed_title self;
     feed_description := feed_description self;
     site_url := site_url self;
     feed_is_active := feed_is_active self;
     error_count := 0;
     last_error := None;
     etag := if truthy etag' then etag' else etag self;
     last_modified :=
       if truthy last_modified' then last_modified' else last_modified self;
     last_fetched_at := Some now;
     last_successful_fetch_at := Some now |}.

(** [Feed.mark_error]. *)
Definition mark_error (now : Z) (error : string) (self : Feed) : Feed :=
  {| feed_id_ := feed_id_ self;
     feed_created_at := feed_created_at self;
     feed_updated_at := feed_updated_at self;
     url := url self;
     feed_title := feed_title self;
     feed_description := feed_description self;
     site_url := site_url self;
     feed_is_active :=
       if error_count self + 1 >=? 10 then false else feed_is_active self;
     error_count := error_count self + 1;
     last_error := Some error;
     etag := etag self;
     last_modified := last_modified self;
     last_fetched_at := Some now;
     last_successful_fetch_at := last_successful_fetch_at self |}.

(** [FeedEntry]. *)
Record FeedEntry := {
  entry_id_ : Z;
  entry_created_at : Z;
  entry_updated_at : Z;
  entry_feed_id : Z;
  guid : string;
  title : string;
  link : string;
  summary : option string;
  content : option string;
  author : option string;
  published_at : option Z;
  image_url : option string;
  title_translated : option string;
  summary_translated : option string;
  translation_language : option string;
  is_sent : bool
}.

(** [Subscription]. *)
Record Subscription := {
  sub_id_ : Z;
  sub_created_at : Z;
  sub_updated_at : Z;
  platform : string;
  platform_user_id : string;
  platform_channel_id : string;
  platform_guild_id : option string;
  sub_feed_id : Z;
  sub_is_active : bool;
  translate : bool;
  target_language : string;
  show_summary : bool;
  show_image : bool;
  last_sent_at : option Z;
  last_entry_guid : option string
}.

(** [SentEntry], the delivery ledger. *)
Record SentEntry := {
  sent_id_ : Z;
  sent_created_at : Z;
  sent_updated_at : Z;
  subscription_id : Z;
  entry_id : Z;
  sent_at : Z
}.

End Models.
Export Models.

(** [k] consecutive failed fetches, the [i]-th at time [now i] with error
    text [err i]. *)
Fixpoint mark_errors (k : nat) (now : nat -> Z) (err : nat -> string)
         (f : Feed) : Feed :=
  match k with
  | O => f
  | S k' => mark_error (now k') (err k') (mark_errors k' now err f)
  end.

(** ** The database *)

(** The four tables.  A row's [id] is assigned on flush as one more than the
    largest [id] in its table (the rowid rule of the default embedded
    engine). *)
Record Store := {
  feeds : list Feed;
  feed_entries : list FeedEntry;
  subscriptions : list Subscription;
  sent_entries : list SentEntry
}.

Definition empty_store : Store :=
  {| feeds := []; feed_entries := []; subscriptions := []; sent_entries := [] |}.

Definition next_id (ids : list Z) : Z := 1 + fold_right Z.max 0 ids.

(** [UPDATE t SET ... WHERE p]. *)
Definition update_where {A : Type} (p : A -> bool) (f : A -> A)
           (rows : list A) : list A :=
  map (fun r => if p r then f r else r) rows.

(** [timedelta(days=d)] and [timedelta(minutes=m)] in seconds. *)
Definition days_to_seconds (d : Z) : Z := d * 86400.
Definition minutes_to_seconds (m : Z) : Z := m * 60.

(** [ORDER BY published_at DESC NULLS LAST]: [published_before a b] holds
    when row [a] may stand before row [b]. *)
Definition published_before (a b : FeedEntry) : bool :=
  match published_at a, published_at b with
  | Some x, Some y => y <=? x
  | Some _, None => true
  | None, Some _ => false
  | None, None => true
  end.

Fixpoint insert_by_published (e : FeedEntry) (l : list FeedEntry)
  : list FeedEntry :=
  match l with
  | [] => [e]
  | h :: t =>
      if published_before e h then e :: h :: t
      else h :: insert_by_published e t
  end.

(** The engine's sort, taken as stable: rows with equal keys keep their
    table order. *)
Definition order_by_published_desc (l : list FeedEntry) : list FeedEntry :=
  fold_right insert_by_published [] l.

(** [LIMIT n]; a negative [n] puts no bound (embedded engine). *)
Definition limit_rows {A : Type} (n : Z) (rows : list A) : list A :=
  if n <? 0 then rows else firstn (Z.to_nat n) rows.

(** ** repositories/feed_repository.py *)

(** One element of [entries_data]: the dict produced by
    [FeedFetcher._parse_entry]. *)
Record EntryData := {
  data_guid : string;
  data_title : string;
  data_link : string;
  data_summary : option string;
  data_content : option string;
  data_author : option string;
  data_published_at : option Z;
  data_image_url : option string
}.

Module FeedRepository.

Definition get_feed_by_id (s : Store) (feed_id : Z) : option Feed :=
  find (fun f => feed_id_ f =? feed_id) (feeds s).

Definition get_feed_by_url (s : Store) (u : string) : option Feed :=
  find (fun f => String.eqb (url f) u) (feeds s).

Definition get_all_active_feeds (s : Store) : list Feed :=
  filter feed_is_active (feeds s).

Definition get_feeds_needing_fetch (now interval_minutes : Z) (s : Store)
  : list Feed :=
  let cutoff := now - minutes_to_seconds interval_minutes in
  filter (fun f => feed_is_active f &&
                   match last_fetched_at f with
                   | None => true
                   | Some t => t <? cutoff
                   end) (feeds s).

Definition with_feeds (s : Store) (fs : list Feed) : Store :=
  {| feeds := fs; feed_entries := feed_entries s;
     subscriptions := subscriptions s; sent_entries := sent_entries s |}.

Definition with_feed_entries (s : Store) (es : list FeedEntry) : Store :=
  {| feeds := feeds s; feed_entries := es;
     subscriptions := subscriptions s; sent_entries := sent_entries s |}.

(** [create_feed]: insert, flush, refresh. *)
Definition create_feed (now : Z) (u : string)
           (title' description' site_url' : option string) (s : Store)
  : Feed * Store :=
  let feed :=
    {| feed_id_ := next_id (map feed_id_ (feeds s));
       feed_created_at := now;
       feed_updated_at := now;
       url := u;
       feed_title := title';
       feed_description := description';
       site_url := site_url';
       feed_is_active := true;
       error_count := 0;
       last_error := None;
       etag := None;
       last_modified := None;
       last_fetched_at := None;
       last_successful_fetch_at := None |} in
  (feed, with_feeds s (feeds s ++ [feed])).

Definition get_or_create_feed (now : Z) (u : string)
           (title' description' : option string) (s : Store)
  : (Feed * bool) * Store :=
  match get_feed_by_url s u with
  | Some existing => ((existing, false), s)
  | None =>
      let '(feed, s') := create_feed now u title' description' None s in
      ((feed, true), s')
  end.

(** The row written by [update_feed_metadata]: the four columns always
    in [update_data], each optional column only when its argument is
    truthy, and [updated_at] through the column's [onupdate]. *)
Definition feed_metadata_row (now : Z)
           (title' description' etag' last_modified' : option string)
           (f : Feed) : Feed :=
  {| feed_id_ := feed_id_ f;
     feed_created_at := feed_created_at f;
     feed_updated_at := now;
     url := url f;
     feed_title := if truthy title' then title' else feed_title f;
     feed_description :=
       if truthy description' then description' else feed_description f;
     site_url := site_url f;
     feed_is_active := feed_is_active f;
     error_count := 0;
     last_error := None;
     etag := if truthy etag' then etag' else etag f;
     last_modified :=
       if truthy last_modified' then last_modified' else last_modified f;
     last_fetched_at := Some now;
     last_successful_fetch_at := Some now |}.

Definition update_feed_metadata (now : Z) (feed_id : Z)
           (title' description' etag' last_modified' : option string)
           (s : Store) : Store :=
  with_feeds s
    (update_where (fun f => feed_id_ f =? feed_id)
       (feed_metadata_row now title' description' etag' last_modified')
       (feeds s)).

(** The flush of a changed [Feed] object also stamps [updated_at]. *)
Definition touch_feed (now : Z) (f : Feed) : Feed :=
  {| feed_id_ := feed_id_ f;
     feed_created_at := feed_created_at f;
     feed_updated_at := now;
     url := url f;
     feed_title := feed_title f;
     feed_description := feed_description f;
     site_url := site_url f;
     feed_is_active := feed_is_active f;
     error_count := error_count f;
     last_error := last_error f;
     etag := etag f;
     last_modified := last_modified f;
     last_fetched_at := last_fetched_at f;
     last_successful_fetch_at := last_successful_fetch_at f |}.

Definition mark_feed_error (now : Z) (feed_id : Z) (error : string)
           (s : Store) : Store :=
  match get_feed_by_id s feed_id with
  | Some _ =>
      with_feeds s
        (update_where (fun f => feed_id_ f =? feed_id)
           (fun f => touch_feed now (mark_error now error f)) (feeds s))
  | None => s
  end.

Definition get_entry_by_guid (s : Store) (feed_id : Z) (g : string)
  : option FeedEntry :=
  find (fun e => (entry_feed_id e =? feed_id) && String.eqb (guid e) g)
       (feed_entries s).

Definition get_unsent_entries (s : Store) (feed_id : Z) (limit : Z)
  : list FeedEntry :=
  limit_rows limit
    (order_by_published_desc
       (filter (fun e => (entry_feed_id e =? feed_id) && negb (is_sent e))
               (feed_entries s))).

Definition get_recent_entries (s : Store) (feed_id : Z) (limit : Z)
  : list FeedEntry :=
  limit_rows limit
    (order_by_published_desc
       (filter (fun e => entry_feed_id e =? feed_id) (feed_entries s))).

(** The [FeedEntry] object built by [create_entry] once flushed. *)
Definition new_entry (now : Z) (id feed_id : Z) (d : EntryData)
  : FeedEntry :=
  {| entry_id_ := id;
     entry_created_at := now;
     entry_updated_at := now;
     entry_feed_id := feed_id;
     guid := data_guid d;
     title := data_title d;
     link := data_link d;
     summary := data_summary d;
     content := data_content d;
     author := data_author d;
     published_at := data_published_at d;
     image_url := data_image_url d;
     title_translated := None;
     summary_translated := None;
     translation_language := None;
     is_sent := false |}.

Definition create_entry (now : Z) (feed_id : Z) (d : EntryData) (s : Store)
  : FeedEntry * Store :=
  let entry :=
    new_entry now (next_id (map entry_id_ (feed_entries s))) feed_id d in
  (entry, with_feed_entries s (feed_entries s ++ [entry])).

(** [create_entries_bulk]: the loop over [entries_data]; the second
    component of the result is [created]. *)
Fixpoint create_entries_bulk (now : Z) (feed_id : Z)
         (entries_data : list EntryData) (s : Store)
  : list FeedEntry * Store :=
  match entries_data with
  | [] => ([], s)
  | d :: rest =>
      match get_entry_by_guid s feed_id (data_guid d) with
      | Some _ => create_entries_bulk now feed_id rest s
      | None =>
          let '(entry, s1) := create_entry now feed_id d s in
          let '(created, s2) := create_entries_bulk now feed_id rest s1 in
          (entry :: created, s2)
      end
  end.

Definition set_translation (now : Z) (tt st lang : string) (e : FeedEntry)
  : FeedEntry :=
  {| entry_id_ := entry_id_ e;
     entry_created_at := entry_created_at e;
     entry_updated_at := now;
     entry_feed_id := entry_feed_id e;
     guid := guid e;
     title := title e;
     link := link e;
     summary := summary e;
     content := content e;
     author := author e;
     published_at := published_at e;
     image_url := image_url e;
     title_translated := Some tt;
     summary_translated := Some st;
     translation_language := Some lang;
     is_sent := is_sent e |}.

Definition update_entry_translation (now : Z) (entry_id' : Z)
           (tt st lang : string) (s : Store) : Store :=
  with_feed_entries s
    (update_where (fun e => entry_id_ e =? entry_id')
                  (set_translation now tt st lang) (feed_entries s)).

(** The janitor's entry purge; returns [rowcount]. *)
Definition cleanup_old_entries (now days : Z) (s : Store) : Z * Store :=
  let cutoff := now - days_to_seconds days in
  let kept := filter (fun e => negb (entry_created_at e <? cutoff))
                     (feed_entries s) in
  (Z.of_nat (List.length (feed_entries s)) - Z.of_nat (List.length kept),
   with_feed_entries s kept).

Definition count_entries (s : Store) (feed_id : Z) : Z :=
  Z.of_nat (List.length
              (filter (fun e => entry_feed_id e =? feed_id) (feed_entries s))).

End FeedRepository.

(** ** repositories/subscription_repository.py *)

Module SubscriptionRepository.

Definition with_subscriptions (s : Store) (l : list Subscription) : Store :=
  {| feeds := feeds s; feed_entries := feed_entries s;
     subscriptions := l; sent_entries := sent_entries s |}.

Definition with_sent_entries (s : Store) (l : list SentEntry) : Store :=
  {| feeds := feeds s; feed_entries := feed_entries s;
     subscriptions := subscriptions s; sent_entries := l |}.

Definition get_subscription_by_id (s : Store) (subscription_id' : Z)
  : option Subscription :=
  find (fun x => sub_id_ x =? subscription_id') (subscriptions s).

(** The [WHERE] clause shared by [get_subscription],
    [deactivate_subscription] and [delete_subscription]. *)
Definition binding_matches (p c : string) (feed_id : Z) (x : Subscription)
  : bool :=
  String.eqb (platform x) p && String.eqb (platform_channel_id x) c
  && (sub_feed_id x =? feed_id).

Definition get_subscription (s : Store) (p c : string) (feed_id : Z)
  : option Subscription :=
  find (binding_matches p c feed_id) (subscriptions s).

(** The [WHERE] clause shared by [get_channel_subscriptions] and
    [count_channel_subscriptions]. *)
Definition channel_matches (p c : string) (x : Subscription) : bool :=
  String.eqb (platform x) p && String.eqb (platform_channel_id x) c
  && sub_is_active x.

Definition get_channel_subscriptions (s : Store) (p c : string)
  : list Subscription :=
  filter (channel_matches p c) (subscriptions s).

Definition get_feed_subscriptions (s : Store) (feed_id : Z)
  : list Subscription :=
  filter (fun x => (sub_feed_id x =? feed_id) && sub_is_active x)
         (subscriptions s).

Definition get_all_active_subscriptions (s : Store) : list Subscription :=
  filter sub_is_active (subscriptions s).

(** [create_subscription] with the defaults of its signature
    ([translate=True], [target_language="zh-CN"]) left open. *)
Definition create_subscription (now : Z) (p user_id c : string)
           (feed_id : Z) (guild_id : option string)
           (translate' : bool) (target_language' : string) (s : Store)
  : Subscription * Store :=
  let subscription :=
    {| sub_id_ := next_id (map sub_id_ (subscriptions s));
       sub_created_at := now;
       sub_updated_at := now;
       platform := p;
       platform_user_id := user_id;
       platform_channel_id := c;
       platform_guild_id := guild_id;
       sub_feed_id := feed_id;
       sub_is_active := true;
       translate := translate';
       target_language := target_language';
       show_summary := true;
       show_image := true;
       last_sent_at := None;
       last_entry_guid := None |} in
  (subscription, with_subscriptions s (subscriptions s ++ [subscription])).

Definition reactivate (now : Z) (x : Subscription) : Subscription :=
  {| sub_id_ := sub_id_ x;
     sub_created_at := sub_created_at x;
     sub_updated_at := now;
     platform := platform x;
     platform_user_id := platform_user_id x;
     platform_channel_id := platform_channel_id x;
     platform_guild_id := platform_guild_id x;
     sub_feed_id := sub_feed_id x;
     sub_is_active := true;
     translate := translate x;
     target_language := target_language x;
     show_summary := show_summary x;
     show_image := show_image x;
     last_sent_at := last_sent_at x;
     last_entry_guid := last_entry_guid x |}.

(** [get_or_create_subscription]: an inactive row is switched back on in
    place and reported as not created. *)
Definition get_or_create_subscription (now : Z) (p user_id c : string)
           (feed_id : Z) (guild_id : option string) (s : Store)
  : (Subscription * bool) * Store :=
  match get_subscription s p c feed_id with
  | Some existing =>
      if negb (sub_is_active existing) then
        ((reactivate now existing, false),
         with_subscriptions s
           (update_where (fun x => sub_id_ x =? sub_id_ existing)
                         (reactivate now) (subscriptions s)))
      else ((existing, false), s)
  | None =>
      let '(subscription, s') :=
        create_subscription now p user_id c feed_id guild_id true "zh-CN" s in
      ((subscription, true), s')
  end.

Definition apply_settings (now : Z) (translate' : option bool)
           (target_language' : option string)
           (show_summary' show_image' : option bool) (x : Subscription)
  : Subscription :=
  {| sub_id_ := sub_id_ x;
     sub_created_at := sub_created_at x;
     sub_updated_at := now;
     platform := platform x;
     platform_user_id := platform_user_id x;
     platform_channel_id := platform_channel_id x;
     platform_guild_id := platform_guild_id x;
     sub_feed_id := sub_feed_id x;
     sub_is_active := sub_is_active x;
     translate := match translate' with Some b => b | None => translate x end;
     target_language :=
       match target_language' with
       | Some l => l
       | None => target_language x
       end;
     show_summary :=
       match show_summary' with Some b => b | None => show_summary x end;
     show_image :=
       match show_image' with Some b => b | None => show_image x end;
     last_sent_at := last_sent_at x;
     last_entry_guid := last_entry_guid x |}.

Definition is_some {A : Type} (o : option A) : bool :=
  match o with Some _ => true | None => false end.

(** [update_subscription_settings]: no statement is issued when
    [update_data] stays empty. *)
Definition update_subscription_settings (now : Z) (subscription_id' : Z)
           (translate' : option bool) (target_language' : option string)
           (show_summary' show_image' : option bool) (s : Store) : Store :=
  if is_some translate' || is_some target_language'
     || is_some show_summary' || is_some show_image'
  then
    with_subscriptions s
      (update_where (fun x => sub_id_ x =? subscription_id')
         (apply_settings now translate' target_language'
                         show_summary' show_image')
         (subscriptions s))
  else s.

Definition deactivate (now : Z) (x : Subscription) : Subscription :=
  {| sub_id_ := sub_id_ x;
     sub_created_at := sub_created_at x;
     sub_updated_at := now;
     platform := platform x;
     platform_user_id := platform_user_id x;
     platform_channel_id := platform_channel_id x;
     platform_guild_id := platform_guild_id x;
     sub_feed_id := sub_feed_id x;
     sub_is_active := false;
     translate := translate x;
     target_language := target_language x;
     show_summary := show_summary x;
     show_image := show_image x;
     last_sent_at := last_sent_at x;
     last_entry_guid := last_entry_guid x |}.

(** [deactivate_subscription]; the result is [rowcount > 0]. *)
Definition deactivate_subscription (now : Z) (p c : string) (feed_id : Z)
           (s : Store) : bool * Store :=
  (existsb (binding_matches p c feed_id) (subscriptions s),
   with_subscriptions s
     (update_where (binding_matches p c feed_id) (deactivate now)
                   (subscriptions s))).

Definition delete_subscription (p c : string) (feed_id : Z) (s : Store)
  : bool * Store :=
  let kept := filter (fun x => negb (binding_matches p c feed_id x))
                     (subscriptions s) in
  (Nat.ltb (List.length kept) (List.length (subscriptions s)),
   with_subscriptions s kept).

Definition count_channel_subscriptions (s : Store) (p c : string) : Z :=
  Z.of_nat (List.length (filter (channel_matches p c) (subscriptions s))).

Definition receipt_matches (subscription_id' entry_id' : Z) (r : SentEntry)
  : bool :=
  (subscription_id r =? subscription_id') && (entry_id r =? entry_id').

Definition is_entry_sent (s : Store) (subscription_id' entry_id' : Z)
  : bool :=
  is_some (find (receipt_matches subscription_id' entry_id')
                (sent_entries s)).

(** [mark_entry_sent]: add the receipt and flush. *)
Definition mark_entry_sent (now : Z) (subscription_id' entry_id' : Z)
           (s : Store) : SentEntry * Store :=
  let sent :=
    {| sent_id_ := next_id (map sent_id_ (sent_entries s));
       sent_created_at := now;
       sent_updated_at := now;
       subscription_id := subscription_id';
       entry_id := entry_id';
       sent_at := now |} in
  (sent, with_sent_entries s (sent_entries s ++ [sent])).

(** [FeedEntry.id.not_in(sent_subquery)] for one subscription. *)
Definition not_in_sent (s : Store) (subscription_id' : Z) (e : FeedEntry)
  : bool :=
  negb (existsb (fun r => (subscription_id r =? subscription_id')
                          && (entry_id r =? entry_id_ e))
                (sent_entries s)).

(** [get_unsent_entries_for_subscription], the dispatch query. *)
Definition get_unsent_entries_for_subscription (s : Store)
           (subscription_id' : Z) (limit : Z) : list FeedEntry :=
  match get_subscription_by_id s subscription_id' with
  | None => []
  | Some subscription =>
      limit_rows limit
        (order_by_published_desc
           (filter (fun e => (entry_feed_id e =? sub_feed_id subscription)
                             && not_in_sent s subscription_id' e)
                   (feed_entries s)))
  end.

(** The janitor's receipt purge; returns [rowcount]. *)
Definition cleanup_old_sent_entries (now days : Z) (s : Store) : Z * Store :=
  let cutoff := now - days_to_seconds days in
  let kept := filter (fun r => negb (sent_at r <? cutoff)) (sent_entries s) in
  (Z.of_nat (List.length (sent_entries s)) - Z.of_nat (List.length kept),
   with_sent_entries s kept).

End SubscriptionRepository.

(** ** services/cache.py *)

Module Cache.

(** [MemoryCache]: the [OrderedDict] is the list of its items, oldest
    first; an item is [(key, (value, expires_at))]. *)
Record MemoryCache := {
  max_size : Z;
  _cache : list (string * (string * option Z))
}.

Definition with_items (c : MemoryCache)
           (items : list (string * (string * option Z))) : MemoryCache :=
  {| max_size := max_size c; _cache := items |}.

Definition lookup (key : string) (items : list (string * (string * option Z)))
  : option (string * option Z) :=
  option_map snd (find (fun kv => String.eqb (fst kv) key) items).

Definition remove (key : string) (items : list (string * (string * option Z)))
  : list (string * (string * option Z)) :=
  filter (fun kv => negb (String.eqb (fst kv) key)) items.

(** [expires_at and time.time() > expires_at]. *)
Definition expired (now : Z) (expires_at : option Z) : bool :=
  match expires_at with
  | None => false
  | Some t => negb (t =? 0) && (now >? t)
  end.

(** [MemoryCache.get] at time [now]. *)
Definition get (now : Z) (key : string) (c : MemoryCache)
  : option string * MemoryCache :=
  match lookup key (_cache c) with
  | None => (None, c)
  | Some (value, expires_at) =>
      if expired now expires_at then
        (None, with_items c (remove key (_cache c)))
      else
        (Some value,
         with_items c (remove key (_cache c) ++ [(key, (value, expires_at))]))
  end.

(** [while len(self._cache) >= self.max_size: popitem(last=False)];
    [None] when [popitem] meets an empty dictionary ([KeyError]). *)
Fixpoint evict (bound : Z) (items : list (string * (string * option Z)))
  : option (list (string * (string * option Z))) :=
  match items with
  | [] => if 0 >=? bound then None else Some []
  | _ :: rest =>
      if Z.of_nat (List.length items) >=? bound then evict bound rest
      else Some items
  end.

(** [MemoryCache.set] at time [now]; the result is [None] when it raises,
    which leaves the dictionary emptied by the eviction loop. *)
Definition set (now : Z) (key value : string) (ttl : option Z)
           (c : MemoryCache) : option bool * MemoryCache :=
  let expires_at :=
    match ttl with
    | Some t => if t =? 0 then None else Some (now + t)
    | None => None
    end in
  match evict (max_size c) (remove key (_cache c)) with
  | None => (None, with_items c [])
  | Some items =>
      (Some true, with_items c (items ++ [(key, (value, expires_at))]))
  end.

Definition delete (key : string) (c : MemoryCache) : bool * MemoryCache :=
  match lookup key (_cache c) with
  | Some _ => (true, with_items c (remove key (_cache c)))
  | None => (false, c)
  end.

Definition exists_ (now : Z) (key : string) (c : MemoryCache)
  : bool * MemoryCache :=
  match lookup key (_cache c) with
  | None => (false, c)
  | Some (_, expires_at) =>
      if expired now expires_at then
        (false, with_items c (remove key (_cache c)))
      else (true, c)
  end.

Definition clear (c : MemoryCache) : MemoryCache := with_items c [].

Definition size (c : MemoryCache) : Z := Z.of_nat (List.length (_cache c)).

End Cache.

(** ** services/translation/base.py *)

Module Translation.

Record TranslationResult := {
  success : bool;
  translated_text : string;
  source_language : option string;
  error : option string;
  from_cache : bool
}.

(** [str.isspace] on the one-byte characters. *)
Definition is_space (ch : ascii) : bool :=
  let n := nat_of_ascii ch in
  (Nat.leb 9 n && Nat.leb n 13) || (Nat.leb 28 n && Nat.leb n 32).

Fixpoint all_space (s : string) : bool :=
  match s with
  | EmptyString => true
  | String ch rest => is_space ch && all_space rest
  end.

(** [not text or not text.strip()]. *)
Definition blank (text : string) : bool := all_space text.

Section Service.

(** The outside world: what a provider call may read and change. *)
Variable World : Type.

(** A [TranslationProvider]: its [name], and [translate] as a step of
    the world that answers [None] when the call raises. *)
Record TranslationProvider := {
  name : string;
  provider_translate :
    string -> string -> option string -> World ->
    option TranslationResult * World;
  supports_language : string -> bool
}.

(** [TranslationService] without its cache, which is threaded as state:
    [None] when no backend is configured. *)
Record TranslationService := {
  provider : TranslationProvider;
  cache_ttl : Z
}.

(** [time.time()], and [hashlib.sha256(text.encode()).hexdigest()]. *)
Variable clock : World -> Z.
Variable sha256_hexdigest : string -> string.

Definition _cache_key (svc : TranslationService) (text target_lang : string)
  : string :=
  let text_hash := String.substring 0 16 (sha256_hexdigest text) in
  ("trans:" ++ name (provider svc) ++ ":" ++ target_lang ++ ":"
     ++ text_hash)%string.

(** [TranslationService.translate]; the first component is [None] when
    the call raises. *)
Definition translate (svc : TranslationService)
           (text target_lang : string) (source_lang : option string)
           (cache : option Cache.MemoryCache) (w : World)
  : option TranslationResult * option Cache.MemoryCache * World :=
  if blank text then
    (Some {| success := true; translated_text := "";
             source_language := None; error := None;
             from_cache := false |}, cache, w)
  else
    let '(cached, cache1) :=
      match cache with
      | Some c =>
          let '(v, c') :=
            Cache.get (clock w) (_cache_key svc text target_lang) c in
          (v, Some c')
      | None => (None, None)
      end in
    if truthy cached then
      (Some {| success := true; translated_text := or_empty cached;
               source_language := None; error := None;
               from_cache := true |}, cache1, w)
    else
      let '(r, w1) :=
        provider_translate (provider svc) text target_lang source_lang w in
      match r with
      | None => (None, cache1, w1)
      | Some result =>
          match cache1 with
          | Some c =>
              if success result
                 && negb (String.eqb (translated_text result) "")
              then
                match Cache.set (clock w1)
                        (_cache_key svc text target_lang)
                        (translated_text result) (Some (cache_ttl svc)) c
                with
                | (Some _, c') => (Some result, Some c', w1)
                | (None, c') => (None, Some c', w1)
                end
              else (Some result, cache1, w1)
          | None => (Some result, cache1, w1)
          end
      end.

End Service.

End Translation.

(** ** core/feed_fetcher.py *)

Module FeedFetcher.

Record FetchResult := {
  fr_url : string;
  fr_success : bool;
  fr_entries : list EntryData;
  fr_etag : option string;
  fr_last_modified : option string;
  fr_feed_title : option string;
  fr_feed_description : option string;
  fr_feed_link : option string;
  fr_error : option string;
  fr_not_modified : bool
}.

(** What [feedparser.parse] makes of a body, with each entry already
    normalised by [_parse_entry]. *)
Record ParsedDocument := {
  bozo : bool;
  bozo_exception : string;
  doc_entries : list EntryData;
  doc_title : option string;
  doc_description : option string;
  doc_link : option string
}.

Record HttpResponse := {
  status : Z;
  reason : string;
  header_etag : option string;
  header_last_modified : option string;
  document : ParsedDocument
}.

(** The ways [session.get] and the reading of the body can end. *)
Inductive HttpOutcome :=
| Responded (r : HttpResponse)
| TimeoutError
| ClientError (msg : string)
| OtherError (msg : string).

Definition failure (u : string) (msg : string) : FetchResult :=
  {| fr_url := u; fr_success := false; fr_entries := [];
     fr_etag := None; fr_last_modified := None;
     fr_feed_title := None; fr_feed_description := None;
     fr_feed_link := None; fr_error := Some msg;
     fr_not_modified := false |}.

(** [If-None-Match] and [If-Modified-Since], each sent only for a truthy
    validator. *)
Definition conditional_headers (etag' last_modified' : option string)
  : option string * option string :=
  (if truthy etag' then etag' else None,
   if truthy last_modified' then last_modified' else None).

(** [_do_fetch], from the outcome of the request on. *)
Definition _do_fetch (u : string) (etag' last_modified' : option string)
           (o : HttpOutcome) : FetchResult :=
  match o with
  | Responded response =>
      if status response =? 304 then
        {| fr_url := u; fr_success := true; fr_entries := [];
           fr_etag := etag'; fr_last_modified := last_modified';
           fr_feed_title := None; fr_feed_description := None;
           fr_feed_link := None; fr_error := None;
           fr_not_modified := true |}
      else if status response >=? 400 then
        failure u ("HTTP " ++ str_of_int (status response) ++ ": "
                     ++ reason response)%string
      else
        let feed := document response in
        if bozo feed && Nat.eqb (List.length (doc_entries feed)) 0 then
          failure u ("Parse error: " ++ bozo_exception feed)%string
        else
          {| fr_url := u; fr_success := true;
             fr_entries := doc_entries feed;
             fr_etag := header_etag response;
             fr_last_modified := header_last_modified response;
             fr_feed_title := doc_title feed;
             fr_feed_description := doc_description feed;
             fr_feed_link := doc_link feed;
             fr_error := None;
             fr_not_modified := false |}
  | TimeoutError => failure u "Request timeout"
  | ClientError msg => failure u ("Network error: " ++ msg)%string
  | OtherError msg => failure u ("Unexpected error: " ++ msg)%string
  end.

(** One element of [entry.media_content]. *)
Record MediaContent := {
  medium : option string;
  media_type : option string;
  media_url : option string
}.

(** One element of [entry.enclosures]. *)
Record Enclosure := {
  enclosure_type : option string;
  enclosure_href : option string;
  enclosure_url : option string
}.

(** One element of [entry.links]. *)
Record EntryLink := {
  link_type : option string;
  link_href : option string
}.

(** A feedparser entry, by the keys [_parse_entry] reads.  A key that is
    absent is [None] (or the empty list); [raw_content] holds the ["value"]
    of each element of [entry.content] and [media_thumbnail] the ["url"] of
    each thumbnail. *)
Record RawEntry := {
  raw_id : option string;
  raw_guid : option string;
  raw_link : option string;
  raw_title : option string;
  raw_published : option string;
  raw_summary : option string;
  raw_description : option string;
  raw_author : option string;
  raw_content : list (option string);
  media_content : list MediaContent;
  media_thumbnail : list (option string);
  enclosures : list Enclosure;
  links : list EntryLink
}.

(** [x.get("type", "").startswith("image/")]. *)
Definition image_mime (t : option string) : bool :=
  String.prefix "image/" (or_empty t).

(** The loop over [entry.media_content]: the outer [Some] says that the
    loop returned. *)
Fixpoint first_media_image (l : list MediaContent) : option (option string) :=
  match l with
  | [] => None
  | media :: rest =>
      if opt_string_eqb (medium media) (Some "image")
         || image_mime (media_type media)
      then Some (media_url media)
      else first_media_image rest
  end.

(** The loop over [entry.enclosures]. *)
Fixpoint first_image_enclosure (l : list Enclosure) : option (option string) :=
  match l with
  | [] => None
  | enclosure :: rest =>
      if image_mime (enclosure_type enclosure)
      then Some (or_else (enclosure_href enclosure) (enclosure_url enclosure))
      else first_image_enclosure rest
  end.

(** The loop over [entry.links]. *)
Fixpoint first_image_link (l : list EntryLink) : option (option string) :=
  match l with
  | [] => None
  | link' :: rest =>
      if image_mime (link_type link') then Some (link_href link')
      else first_image_link rest
  end.

(** [_extract_image]. *)
Definition _extract_image (entry : RawEntry) : option string :=
  match first_media_image (media_content entry) with
  | Some found => found
  | None =>
      match media_thumbnail entry with
      | thumbnail :: _ => thumbnail
      | [] =>
          match first_image_enclosure (enclosures entry) with
          | Some found => found
          | None =>
              match first_image_link (links entry) with
              | Some found => found
              | None => None
              end
          end
      end
  end.

(** The [guid] expression of [_parse_entry]. *)
Definition entry_guid (entry : RawEntry) : string :=
  or_empty
    (or_else (raw_id entry)
       (or_else (raw_guid entry)
          (or_else (raw_link entry)
             (Some (or_empty (raw_title entry) ++ "-"
                      ++ or_empty (raw_published entry))%string)))).

(** [_parse_entry]; [_parse_date], which rests on the date library, is a
    parameter. *)
Definition _parse_entry (_parse_date : RawEntry -> option Z)
           (entry : RawEntry) (feed_url : string) : EntryData :=
  {| data_guid := entry_guid entry;
     data_title :=
       match raw_title entry with Some t => t | None => "Untitled" end;
     data_link :=
       match raw_link entry with Some l => l | None => feed_url end;
     data_summary :=
       Some (or_empty (or_else (raw_summary entry)
                         (or_else (raw_description entry) (Some ""))));
     data_content :=
       match raw_content entry with
       | [] => None
       | value :: _ => Some (or_empty value)
       end;
     data_author := raw_author entry;
     data_published_at := _parse_date entry;
     data_image_url := _extract_image entry |}.

End FeedFetcher.
Export FeedFetcher.

(** ** adapters/base.py *)

Record Message := {
  msg_title : string;
  msg_summary : string;
  msg_link : string;
  msg_source : string;
  msg_published_at : option Z;
  msg_image_url : option string;
  msg_title_translated : option string;
  msg_summary_translated : option string
}.

(** ** The running engine *)

(** What the engine holds between two awaits: the session's view of the
    database, the process-wide translation cache ([None] when no backend
    was initialised) and the outside world. *)
Record Sys (World : Type) := {
  db : Store;
  cache : option Cache.MemoryCache;
  world : World
}.

Arguments db {World} _.
Arguments cache {World} _.
Arguments world {World} _.

(** A chat adapter's [send_message]: [Some b] when it returns [b], [None]
    when it raises. *)
Definition MessageSender (World : Type) : Type :=
  string -> Message -> World -> option bool * World.

(** The collaborators and settings the engine is started with. *)
Record Env (World : Type) := {
  clock : World -> Z;
  http_get : string -> option string * option string -> World ->
             HttpOutcome * World;
  get_source_name : string -> string -> string;
  _adapters : string -> option (MessageSender World);
  translation_provider : option (Translation.TranslationProvider World);
  sha256_hexdigest : string -> string;
  sleep : World -> World;
  max_feeds_per_channel : Z
}.

(** State-passing computations over [Sys]. *)
Definition M (World A : Type) : Type := Sys World -> A * Sys World.

Definition ret {World A : Type} (a : A) : M World A := fun st => (a, st).

Definition bind {World A B : Type} (c : M World A) (k : A -> M World B)
  : M World B :=
  fun st => let '(a, st') := c st in k a st'.

Notation "x <- c ;; k" := (bind c (fun x => k))
  (at level 61, c at next level, right associativity).
Notation "' p <- c ;; k" := (bind c (fun x => let p := x in k))
  (at level 61, p pattern, c at next level, right associativity).
Notation "c ;;; k" := (bind c (fun _ => k))
  (at level 61, right associativity).

(** Run a query on the database. *)
Definition query {World A : Type} (q : Store -> A) : M World A :=
  fun st => (q (db st), st).

(** Run a statement that returns a value. *)
Definition exec {World A : Type} (f : Store -> A * Store) : M World A :=
  fun st => let '(a, s') := f (db st) in
            (a, {| db := s'; cache := cache st; world := world st |}).

(** Run a statement that returns nothing. *)
Definition exec_ {World : Type} (f : Store -> Store) : M World unit :=
  fun st => (tt, {| db := f (db st); cache := cache st; world := world st |}).

(** An awaited call on the outside world. *)
Definition await {World A : Type} (f : World -> A * World) : M World A :=
  fun st => let '(a, w') := f (world st) in
            (a, {| db := db st; cache := cache st; world := w' |}).

(** ** services/feed_service.py *)

Module FeedService.

Record AddFeedResult := {
  add_success : bool;
  add_feed_ : option Feed;
  add_message : string;
  entry_count : Z
}.

Record FetchFeedResult := {
  ffr_success : bool;
  ffr_feed : option Feed;
  new_entries : list FeedEntry;
  ffr_message : string
}.

Section WithEnv.

Variable World : Type.
Variable E : Env World.

(** [datetime.now(timezone.utc)]. *)
Definition now_ : M World Z := fun st => (clock E (world st), st).

(** [FeedFetcher.fetch_feed]: the request, then [_do_fetch]. *)
Definition fetch_feed (u : string) (etag' last_modified' : option string)
  : M World FetchResult :=
  o <- await (http_get E u (conditional_headers etag' last_modified')) ;;
  ret (_do_fetch u etag' last_modified' o).

Definition add_feed (u : string) : M World AddFeedResult :=
  existing <- query (fun s => FeedRepository.get_feed_by_url s u) ;;
  match existing with
  | Some f =>
      ret {| add_success := true; add_feed_ := Some f;
             add_message := "Feed already exists"; entry_count := 0 |}
  | None =>
      result <- fetch_feed u None None ;;
      if negb (fr_success result) then
        ret {| add_success := false; add_feed_ := None;
               add_message :=
                 ("Failed to fetch feed: "
                    ++ str_of_opt (fr_error result))%string;
               entry_count := 0 |}
      else if Nat.eqb (List.length (fr_entries result)) 0 then
        ret {| add_success := false; add_feed_ := None;
               add_message := "Feed has no entries"; entry_count := 0 |}
      else
        t0 <- now_ ;;
        feed <- exec (FeedRepository.create_feed t0 u
                        (fr_feed_title result)
                        (fr_feed_description result)
                        (fr_feed_link result)) ;;
        t1 <- now_ ;;
        exec_ (FeedRepository.update_feed_metadata t1 (feed_id_ feed)
                 None None (fr_etag result) (fr_last_modified result)) ;;;
        t2 <- now_ ;;
        entries <- exec (FeedRepository.create_entries_bulk t2
                           (feed_id_ feed) (fr_entries result)) ;;
        ret {| add_success := true; add_feed_ := Some feed;
               add_message :=
                 ("Feed added with "
                    ++ str_of_int (Z.of_nat (List.length entries))
                    ++ " entries")%string;
               entry_count := Z.of_nat (List.length entries) |}
  end.

(** [fetch_and_store] for a loaded [Feed] object.  The fetcher turns every
    failure of the request into a result and the statements issued here do
    not fail, so the method's own [except] branch is never entered. *)
Definition fetch_and_store (feed : Feed) : M World FetchFeedResult :=
  result <- fetch_feed (url feed) (etag feed) (last_modified feed) ;;
  if negb (fr_success result) then
    t <- now_ ;;
    exec_ (FeedRepository.mark_feed_error t (feed_id_ feed)
             (str_of_opt (fr_error result))) ;;;
    ret {| ffr_success := false; ffr_feed := Some feed;
           new_entries := [];
           ffr_message :=
             ("Fetch error: " ++ str_of_opt (fr_error result))%string |}
  else if fr_not_modified result then
    t <- now_ ;;
    exec_ (FeedRepository.update_feed_metadata t (feed_id_ feed)
             None None None None) ;;;
    ret {| ffr_success := true; ffr_feed := Some feed;
           new_entries := []; ffr_message := "Not modified" |}
  else
    t <- now_ ;;
    exec_ (FeedRepository.update_feed_metadata t (feed_id_ feed)
             (fr_feed_title result) (fr_feed_description result)
             (fr_etag result) (fr_last_modified result)) ;;;
    if negb (Nat.eqb (List.length (fr_entries result)) 0) then
      t' <- now_ ;;
      created <- exec (FeedRepository.create_entries_bulk t'
                         (feed_id_ feed) (fr_entries result)) ;;
      ret {| ffr_success := true; ffr_feed := Some feed;
             new_entries := created;
             ffr_message :=
               (str_of_int (Z.of_nat (List.length created))
                  ++ " new entries")%string |}
    else
      ret {| ffr_success := true; ffr_feed := Some feed;
             new_entries := []; ffr_message := "No new entries" |}.

(** [FeedService.cleanup_old_entries]. *)
Definition cleanup_old_entries (days : Z) : M World Z :=
  t <- now_ ;;
  exec (FeedRepository.cleanup_old_entries t days).

(** The loop of [fetch_all_feeds] over the loaded feeds. *)
Fixpoint fetch_each (fs : list Feed) : M World (list FetchFeedResult) :=
  match fs with
  | [] => ret []
  | feed :: rest =>
      result <- fetch_and_store feed ;;
      results <- fetch_each rest ;;
      ret (result :: results)
  end.

Definition fetch_all_feeds : M World (list FetchFeedResult) :=
  fs <- query FeedRepository.get_all_active_feeds ;;
  fetch_each fs.

End WithEnv.

End FeedService.

(** ** services/subscription_service.py *)

Module SubscriptionService.

Record SubscribeResult := {
  sr_success : bool;
  sr_subscription : option Subscription;
  sr_feed : option Feed;
  sr_message : string;
  is_new : bool
}.

Record UnsubscribeResult := {
  ur_success : bool;
  ur_message : string
}.

Section WithEnv.

Variable World : Type.
Variable E : Env World.

(** [subscribe] from [# Add or get feed] on.  [add_feed] reports
    success only together with a feed. *)
Definition subscribe_feed (p user_id c feed_url : string)
           (guild_id : option string) : M World SubscribeResult :=
  add_result <- FeedService.add_feed E feed_url ;;
  match FeedService.add_success add_result,
        FeedService.add_feed_ add_result with
  | true, Some feed =>
      t <- FeedService.now_ E ;;
      '(subscription, created) <-
        exec (SubscriptionRepository.get_or_create_subscription t
                p user_id c (feed_id_ feed) guild_id) ;;
      if negb created then
        ret {| sr_success := true;
               sr_subscription := Some subscription;
               sr_feed := Some feed;
               sr_message := "Already subscribed to this feed";
               is_new := false |}
      else
        ret {| sr_success := true;
               sr_subscription := Some subscription;
               sr_feed := Some feed;
               sr_message :=
                 ("Subscribed to "
                    ++ (if truthy (feed_title feed)
                        then or_empty (feed_title feed)
                        else feed_url))%string;
               is_new := true |}
  | _, _ =>
      ret {| sr_success := false; sr_subscription := None;
             sr_feed := None;
             sr_message := FeedService.add_message add_result;
             is_new := false |}
  end.

Definition quota_reached : SubscribeResult :=
  {| sr_success := false; sr_subscription := None; sr_feed := None;
     sr_message :=
       ("Maximum feeds (" ++ str_of_int (max_feeds_per_channel E)
          ++ ") reached")%string;
     is_new := false |}.

Definition subscribe (p user_id c feed_url : string)
           (guild_id : option string) : M World SubscribeResult :=
  if max_feeds_per_channel E >? 0 then
    count <- query (fun s =>
               SubscriptionRepository.count_channel_subscriptions s p c) ;;
    if count >=? max_feeds_per_channel E then ret quota_reached
    else subscribe_feed p user_id c feed_url guild_id
  else subscribe_feed p user_id c feed_url guild_id.

(** [unsubscribe].  The statement deletes the subscription rows only; the
    embedded engine is not asked to enforce foreign keys, so the receipts of
    a deleted subscription stay in their table. *)
Definition unsubscribe (p c feed_url : string) : M World UnsubscribeResult :=
  feed <- query (fun s => FeedRepository.get_feed_by_url s feed_url) ;;
  match feed with
  | None =>
      ret {| ur_success := false; ur_message := "Feed not found" |}
  | Some f =>
      deleted <- exec (SubscriptionRepository.delete_subscription
                         p c (feed_id_ f)) ;;
      if negb deleted then
        ret {| ur_success := false;
               ur_message := "Subscription not found" |}
      else
        ret {| ur_success := true;
               ur_message :=
                 ("Unsubscribed from "
                    ++ (if truthy (feed_title f)
                        then or_empty (feed_title f)
                        else feed_url))%string |}
  end.

(** [SubscriptionService.cleanup_old_sent_entries]. *)
Definition cleanup_old_sent_entries (days : Z) : M World Z :=
  t <- FeedService.now_ E ;;
  exec (SubscriptionRepository.cleanup_old_sent_entries t days).

(** The loop of [update_settings]; [sub.feed] is the row the
    subscription's [feed_id] points to, and reading [.url] of a missing
    one raises ([None]). *)
Fixpoint update_each (feed_url : option string)
         (translate' : option bool) (target_language' : option string)
         (subs : list Subscription) : M World (option unit) :=
  match subs with
  | [] => ret (Some tt)
  | sub :: rest =>
      if truthy feed_url then
        feed <- query (fun s =>
                  FeedRepository.get_feed_by_id s (sub_feed_id sub)) ;;
        match feed with
        | None => ret None
        | Some f =>
            if negb (opt_string_eqb (Some (url f)) feed_url) then
              update_each feed_url translate' target_language' rest
            else
              t <- FeedService.now_ E ;;
              exec_ (SubscriptionRepository.update_subscription_settings
                       t (sub_id_ sub) translate' target_language'
                       None None) ;;;
              update_each feed_url translate' target_language' rest
        end
      else
        t <- FeedService.now_ E ;;
        exec_ (SubscriptionRepository.update_subscription_settings
                 t (sub_id_ sub) translate' target_language'
                 None None) ;;;
        update_each feed_url translate' target_language' rest
  end.

(** [update_settings]; [None] when it raises. *)
Definition update_settings (p c : string) (feed_url : option string)
           (translate' : option bool) (target_language' : option string)
  : M World (option bool) :=
  subs <- query (fun s =>
            SubscriptionRepository.get_channel_subscriptions s p c) ;;
  match subs with
  | [] => ret (Some false)
  | _ =>
      r <- update_each feed_url translate' target_language' subs ;;
      match r with
      | Some _ => ret (Some true)
      | None => ret None
      end
  end.

End WithEnv.

End SubscriptionService.

(** ** services/dispatcher.py *)

Module Dispatcher.

Record DispatchResult := {
  feeds_fetched : Z;
  new_entries_count : Z;
  messages_sent : Z;
  errors : Z
}.

(** One call of an adapter's [send_message] as the cycle made it: the
    subscription, the entry, and what the call returned ([None]: raised). *)
Definition SendEvent : Type := (Z * Z * option bool)%type.

Section WithEnv.

Variable World : Type.
Variable E : Env World.

(** [get_translation_service()]: a service exists when a provider is
    configured; the factory builds it over the process-wide cache and
    leaves [cache_ttl] at its default of seven days. *)
Definition get_translation_service
  : option (Translation.TranslationService World) :=
  match translation_provider E with
  | Some p =>
      Some {| Translation.provider := p;
              Translation.cache_ttl := 86400 * 7 |}
  | None => None
  end.

(** A call of [translation_service.translate] from the dispatcher. *)
Definition call_translate (svc : Translation.TranslationService World)
           (text target_lang : string)
  : M World (option Translation.TranslationResult) :=
  fun st =>
    let '(r, c', w') :=
      Translation.translate (clock E) (sha256_hexdigest E) svc
        text target_lang None (cache st) (world st) in
    (r, {| db := db st; cache := c'; world := w' |}).

(** [entry.summary[:1000] if len(entry.summary) > 1000 else entry.summary]. *)
Definition summary_text (s : string) : string :=
  if Nat.ltb 1000 (String.length s) then String.substring 0 1000 s else s.

(** The [try] block of [_translate_entry]: any raise leaves it with the
    translations obtained so far and skips the write-back. *)
Definition translate_fields
           (svc : Translation.TranslationService World)
           (entry : FeedEntry) (target_language' : string)
  : M World (option string * option string) :=
  rt <- (if truthy (Some (title entry))
         then r <- call_translate svc (title entry) target_language' ;;
              ret (option_map
                     (fun x => if Translation.success x
                               then Some (Translation.translated_text x)
                               else None) r)
         else ret (Some None)) ;;
  match rt with
  | None => ret (None, None)
  | Some title_translated' =>
      rs <- (if truthy (summary entry)
             then r <- call_translate svc
                         (summary_text (or_empty (summary entry)))
                         target_language' ;;
                  ret (option_map
                         (fun x => if Translation.success x
                                   then Some (Translation.translated_text x)
                                   else None) r)
             else ret (Some None)) ;;
      match rs with
      | None => ret (title_translated', None)
      | Some summary_translated' =>
          (if truthy title_translated' || truthy summary_translated'
           then t <- FeedService.now_ E ;;
                exec_ (FeedRepository.update_entry_translation t
                         (entry_id_ entry)
                         (or_empty title_translated')
                         (or_empty summary_translated')
                         target_language')
           else ret tt) ;;;
          ret (title_translated', summary_translated')
      end
  end.

Definition _translate_entry (entry : FeedEntry) (target_language' : string)
  : M World (option string * option string) :=
  if opt_string_eqb (translation_language entry) (Some target_language')
     && truthy (title_translated entry)
  then ret (title_translated entry, summary_translated entry)
  else
    match get_translation_service with
    | None => ret (None, None)
    | Some svc => translate_fields svc entry target_language'
    end.

Definition _create_message (entry : FeedEntry) (subscription : Subscription)
  : M World Message :=
  let lang :=
    if String.prefix "zh" (target_language subscription)
    then "zh" else "en" in
  let source := get_source_name E (link entry) lang in
  '(title_translated', summary_translated') <-
    (if translate subscription
     then _translate_entry entry (target_language subscription)
     else ret (title_translated entry, summary_translated entry)) ;;
  ret {| msg_title := title entry;
         msg_summary :=
           if truthy (summary entry) then or_empty (summary entry) else "";
         msg_link := link entry;
         msg_source := source;
         msg_published_at := published_at entry;
         msg_image_url := image_url entry;
         msg_title_translated := title_translated';
         msg_summary_translated := summary_translated' |}.

(** The body of the [for entry in entries] loop of
    [_dispatch_to_subscription]: what it adds to [sent_count], and the
    call it made.  A raise inside the [try] is logged and skips the
    rest of the body. *)
Definition send_entry (adapter : MessageSender World)
           (subscription : Subscription) (entry : FeedEntry)
  : M World (Z * SendEvent) :=
  message <- _create_message entry subscription ;;
  success <- await (adapter (platform_channel_id subscription) message) ;;
  sent <-
    match success with
    | Some true =>
        t <- FeedService.now_ E ;;
        exec (SubscriptionRepository.mark_entry_sent t
                (sub_id_ subscription) (entry_id_ entry)) ;;;
        await (fun w => (tt, sleep E w)) ;;;
        ret 1
    | Some false =>
        await (fun w => (tt, sleep E w)) ;;;
        ret 0
    | None => ret 0
    end ;;
  ret (sent, (sub_id_ subscription, entry_id_ entry, success)).

(** The loop itself: returns [sent_count] and the calls made. *)
Fixpoint send_entries (adapter : MessageSender World)
         (subscription : Subscription) (entries : list FeedEntry)
  : M World (Z * list SendEvent) :=
  match entries with
  | [] => ret (0, [])
  | entry :: rest =>
      '(sent, event) <- send_entry adapter subscription entry ;;
      '(sent_count, events) <- send_entries adapter subscription rest ;;
      ret (sent + sent_count, event :: events)
  end.

Definition _dispatch_to_subscription (subscription : Subscription)
  : M World (Z * list SendEvent) :=
  match _adapters E (platform subscription) with
  | None => ret (0, [])
  | Some adapter =>
      entries <- query (fun s =>
        SubscriptionRepository.get_unsent_entries_for_subscription
          s (sub_id_ subscription) 10) ;;
      send_entries adapter subscription entries
  end.

(** The [for sub in subscriptions] loop of [dispatch_once]. *)
Fixpoint dispatch_each (subs : list Subscription)
  : M World (Z * list SendEvent) :=
  match subs with
  | [] => ret (0, [])
  | sub :: rest =>
      '(sent, events) <- _dispatch_to_subscription sub ;;
      '(sent', events') <- dispatch_each rest ;;
      ret (sent + sent', events ++ events')
  end.

(** [new_entries.extend(fr.new_entries)] over the successful results. *)
Definition collect_new_entries
           (fetch_results : list FeedService.FetchFeedResult)
  : list FeedEntry :=
  flat_map (fun fr => if FeedService.ffr_success fr
                      then FeedService.new_entries fr else [])
           fetch_results.

(** [dispatch_once].  The state it returns holds the database as the
    cycle leaves it for the next session: with no new entry the method
    returns before [session.commit()], so closing the session discards
    what the fetch phase wrote. *)
Definition dispatch_once : M World (DispatchResult * list SendEvent) :=
  fun st0 =>
    let '(fetch_results, st1) := FeedService.fetch_all_feeds E st0 in
    let fetched := Z.of_nat (List.length fetch_results) in
    let fresh := collect_new_entries fetch_results in
    match fresh with
    | [] =>
        (({| feeds_fetched := fetched; new_entries_count := 0;
             messages_sent := 0; errors := 0 |}, []),
         {| db := db st0; cache := cache st1; world := world st1 |})
    | _ =>
        let '(subs, st2) :=
          query SubscriptionRepository.get_all_active_subscriptions st1 in
        let '((sent, events), st3) := dispatch_each subs st2 in
        (({| feeds_fetched := fetched;
             new_entries_count := Z.of_nat (List.length fresh);
             messages_sent := sent; errors := 0 |}, events), st3)
    end.

End WithEnv.

End Dispatcher.

(** ** core/content_processor.py *)

Module ContentProcessor.

Definition MAX_TITLE_LENGTH : Z := 256.
Definition MAX_SUMMARY_LENGTH : Z := 1024.








End ContentProcessor.

(** ** adapters/telegram/bot.py *)

Module Telegram.

(** [text.replace(old, new)] for a one-character [old]. *)
Fixpoint replace_char (old : ascii) (new : string) (text : string) : string :=
  match text with
  | EmptyString => EmptyString
  | String ch rest =>
      if Ascii.eqb ch old then (new ++ replace_char old new rest)%string
      else String ch (replace_char old new rest)
  end.

(** [TelegramAdapter._escape_html]. *)
Definition _escape_html (text : string) : string :=
  replace_char ">" "&gt;"
    (replace_char "<" "&lt;" (replace_char "&" "&amp;" text)).

End Telegram.

(** ** config.py, services/translation/factory.py *)

Module Config.

(** [Literal["google", "deepl", "openai"]]. *)
Inductive ProviderName := google | deepl | openai.

(** The translation part of [Settings]. *)
Record Settings := {
  translation_enabled : bool;
  translation_provider : ProviderName;
  google_credentials_path : option string;
  google_project_id : option string;
  deepl_api_key : option string;
  openai_api_key : option string;
  openai_model : string;
  openai_base_url : option string
}.

Definition get_translation_api_key (self : Settings) : option string :=
  match translation_provider self with
  | google => google_credentials_path self
  | deepl => deepl_api_key self
  | openai => openai_api_key self
  end.

Definition can_translate (self : Settings) : bool :=
  if negb (translation_enabled self) then false
  else truthy (get_translation_api_key self).

(** The provider object built by the factory, by its constructor
    arguments. *)
Inductive Provider :=
| DeepLProvider (api_key : option string)
| OpenAIProvider (api_key : option string) (model : string)
                 (base_url : option string)
| GoogleProvider (credentials_path project_id : option string).

Definition provider_eqb (a b : ProviderName) : bool :=
  match a, b with
  | google, google | deepl, deepl | openai, openai => true
  | _, _ => false
  end.

(** [create_translation_provider]. *)
Definition create_translation_provider (settings : Settings)
  : option Provider :=
  if negb (can_translate settings) then None
  else if provider_eqb (translation_provider settings) deepl
          && truthy (deepl_api_key settings)
  then Some (DeepLProvider (deepl_api_key settings))
  else if provider_eqb (translation_provider settings) openai
          && truthy (openai_api_key settings)
  then Some (OpenAIProvider (openai_api_key settings)
               (openai_model settings) (openai_base_url settings))
  else if provider_eqb (translation_provider settings) google
          && truthy (google_credentials_path settings)
  then Some (GoogleProvider (google_credentials_path settings)
               (google_project_id settings))
  else None.

End Config.

(** ** Vocabulary of the specification *)

(** The guids stored for a feed. *)
Definition stored_guids (s : Store) (feed_id : Z) : list string :=
  map guid (filter (fun e => entry_feed_id e =? feed_id) (feed_entries s)).

Definition guid_in (g : string) (seen : list string) : bool :=
  existsb (String.eqb g) seen.

(** The first-occurrence records of a batch: a record is kept when its guid
    is neither stored already ([seen]) nor carried by an earlier record of
    the batch; every later occurrence is dropped. *)
Fixpoint first_occurrences (seen : list string) (batch : list EntryData)
  : list EntryData :=
  match batch with
  | [] => []
  | d :: rest =>
      if guid_in (data_guid d) seen then first_occurrences seen rest
      else d :: first_occurrences (data_guid d :: seen) rest
  end.

(** Rows made of the records [ds] for feed [feed_id] at time [now], with
    consecutive ids from [n] on. *)
Fixpoint number_entries (now feed_id n : Z) (ds : list EntryData)
  : list FeedEntry :=
  match ds with
  | [] => []
  | d :: rest =>
      FeedRepository.new_entry now n feed_id d
        :: number_entries now feed_id (n + 1) rest
  end.

(** Newest first, entries without a publication time last. *)
Definition newest_first_nulls_last (a b : FeedEntry) : Prop :=
  match published_at a, published_at b with
  | Some x, Some y => y <= x
  | Some _, None => True
  | None, Some _ => False
  | None, None => True
  end.

(** The rows the dispatch query may return for a subscription: entries of
    its feed without a receipt for it. *)
Definition eligible (s : Store) (subscription : Subscription) (e : FeedEntry)
  : bool :=
  (entry_feed_id e =? sub_feed_id subscription)
  && negb (SubscriptionRepository.is_entry_sent s (sub_id_ subscription)
             (entry_id_ e)).

(** The receipts a list of adapter calls asks for: one per call that
    returned success, in call order. *)
Definition successful (events : list Dispatcher.SendEvent) : list (Z * Z) :=
  map (fun ev => fst ev)
      (filter (fun ev => match snd ev with Some true => true | _ => false end)
              events).

Definition receipt_key (r : SentEntry) : Z * Z :=
  (subscription_id r, entry_id r).

(** What identifies an entry to the dispatch query: its id, its feed and
    its publication time. *)
Definition skeleton (e : FeedEntry) : Z * Z * option Z :=
  (entry_id_ e, entry_feed_id e, published_at e).


(** Subscriptions and receipts are the same in both databases. *)
Definition same_ledger (s s' : Store) : Prop :=
  subscriptions s' = subscriptions s /\ sent_entries s' = sent_entries s.

(** The databases differ at most in columns of entries that the dispatch
    query does not read. *)
Definition same_rows (s s' : Store) : Prop :=
  feeds s' = feeds s /\ subscriptions s' = subscriptions s /\
  sent_entries s' = sent_entries s /\
  map skeleton (feed_entries s') = map skeleton (feed_entries s).

(** From [s] to [s'] the ledger gained exactly one receipt per successful
    call of [events], in call order, and nothing else the dispatch query
    reads has changed. *)
Definition ledger_grows (s s' : Store) (events : list Dispatcher.SendEvent)
  : Prop :=
  exists new,
    sent_entries s' = sent_entries s ++ new /\
    map receipt_key new = successful events /\
    feeds s' = feeds s /\ subscriptions s' = subscriptions s /\
    map skeleton (feed_entries s') = map skeleton (feed_entries s).

(** A computation respects [R] when [R] relates the database before it to
    the database after it. *)
Definition respects {World : Type} (R : Store -> Store -> Prop) {A : Type}
           (c : M World A) : Prop :=
  forall st, R (db st) (db (snd (c st))).

(** Reading an escaped text back: each of the three entities becomes its
    character again. *)
Fixpoint unescape_html (s : string) : string :=
  match s with
  | String "&" (String "a" (String "m" (String "p" (String ";" rest)))) =>
      String "&" (unescape_html rest)
  | String "&" (String "l" (String "t" (String ";" rest))) =>
      String "<" (unescape_html rest)
  | String "&" (String "g" (String "t" (String ";" rest))) =>
      String ">" (unescape_html rest)
  | String ch rest => String ch (unescape_html rest)
  | EmptyString => EmptyString
  end.

(** The character occurs in the text. *)
Fixpoint occurs (ch : ascii) (s : string) : bool :=
  match s with
  | EmptyString => false
  | String c rest => Ascii.eqb c ch || occurs ch rest
  end.



(** The database keeps its keys apart: row ids are unique in the entry and
    subscription tables, and no (subscription, entry) pair has two
    receipts. *)
Definition keys_unique (s : Store) : Prop :=
  NoDup (map entry_id_ (feed_entries s)) /\
  NoDup (map sub_id_ (subscriptions s)) /\
  NoDup (map receipt_key (sent_entries s)).

(** The natural key of an entry. *)
Definition entry_key (e : FeedEntry) : Z * string :=
  (entry_feed_id e, guid e).

(** The same engine with another quota. *)
Definition with_max_feeds {World : Type} (E : Env World) (n : Z) : Env World :=
  {| clock := clock E;
     http_get := http_get E;
     get_source_name := get_source_name E;
     _adapters := _adapters E;
     translation_provider := translation_provider E;
     sha256_hexdigest := sha256_hexdigest E;
     sleep := sleep E;
     max_feeds_per_channel := n |}.

(** ** A small installation

    One feed, one Discord channel subscribed to it, and two versions of
    the outside world.  The world state counts the HTTP requests answered
    so far; one hour passes per request. *)

Module Scenario.

Definition World : Type := nat.

Definition feed_url : string := "https://example.org/rss".

Definition item (g : string) (t : Z) : EntryData :=
  {| data_guid := g;
     data_title := g;
     data_link := ("https://example.org/" ++ g)%string;
     data_summary := Some "summary";
     data_content := None;
     data_author := None;
     data_published_at := Some t;
     data_image_url := None |}.

Definition ok_response (items : list EntryData) : HttpResponse :=
  {| status := 200; reason := "OK";
     header_etag := Some "v2"; header_last_modified := None;
     document :=
       {| bozo := false; bozo_exception := "";
          doc_entries := items;
          doc_title := Some "Example"; doc_description := None;
          doc_link := Some "https://example.org" |} |}.

Definition not_modified_response : HttpResponse :=
  {| status := 304; reason := "Not Modified";
     header_etag := None; header_last_modified := None;
     document :=
       {| bozo := false; bozo_exception := "";
          doc_entries := [];
          doc_title := None; doc_description := None;
          doc_link := None |} |}.

(** A server that publishes item A and then nothing new: every later
    request is answered 304. *)
Definition quiet_http (u : string) (h : option string * option string)
           (w : World) : HttpOutcome * World :=
  (if Nat.eqb w 0 then Responded (ok_response [item "A" 100])
   else Responded not_modified_response, S w).

(** A server that publishes item A and, from the second request on, a
    newer item B as well. *)
Definition busy_http (u : string) (h : option string * option string)
           (w : World) : HttpOutcome * World :=
  (if Nat.eqb w 0 then Responded (ok_response [item "A" 100])
   else Responded (ok_response [item "B" 200; item "A" 100]), S w).

(** A chat platform that refuses every message until the second request
    has been answered, and accepts every message afterwards. *)
Definition flaky_adapter : MessageSender World :=
  fun _ _ w => (Some (Nat.ltb 1 w), w).

Definition env (http : string -> option string * option string -> World ->
                       HttpOutcome * World) : Env World :=
  {| clock := fun w => 1000 + 3600 * Z.of_nat w;
     http_get := http;
     get_source_name := fun _ _ => "Example";
     _adapters := fun p => if String.eqb p "discord"
                           then Some flaky_adapter else None;
     translation_provider := None;
     sha256_hexdigest := fun text => text;
     sleep := fun w => w;
     max_feeds_per_channel := 0 |}.

Definition env_quiet : Env World := env quiet_http.
Definition env_busy : Env World := env busy_http.

Definition feed1 : Feed :=
  {| feed_id_ := 1; feed_created_at := 0; feed_updated_at := 0;
     url := feed_url;
     feed_title := Some "Example"; feed_description := None;
     site_url := None; feed_is_active := true;
     error_count := 0; last_error := None;
     etag := Some "v1"; last_modified := None;
     last_fetched_at := None; last_successful_fetch_at := None |}.

Definition sub1 : Subscription :=
  {| sub_id_ := 1; sub_created_at := 0; sub_updated_at := 0;
     platform := "discord"; platform_user_id := "1";
     platform_channel_id := "42"; platform_guild_id := None;
     sub_feed_id := 1; sub_is_active := true;
     translate := false; target_language := "zh-CN";
     show_summary := true; show_image := true;
     last_sent_at := None; last_entry_guid := None |}.

Definition store0 : Store :=
  {| feeds := [feed1]; feed_entries := [];
     subscriptions := [sub1]; sent_entries := [] |}.

Definition st0 : Sys World :=
  {| db := store0; cache := None; world := 0%nat |}.

(** The same installation after its first request. *)
Definition st1 : Sys World :=
  {| db := store0; cache := None; world := 1%nat |}.

(** Three stored entries, one of them without a publication time, and a
    receipt for the newest. *)
Definition store3 : Store :=
  {| feeds := [feed1];
     feed_entries :=
       [FeedRepository.new_entry 5 1 1 (item "A" 100);
        FeedRepository.new_entry 5 2 1
          {| data_guid := "N"; data_title := "N"; data_link := "n";
             data_summary := None; data_content := None;
             data_author := None; data_published_at := None;
             data_image_url := None |};
        FeedRepository.new_entry 5 3 1 (item "B" 200);
        FeedRepository.new_entry 5 4 1 (item "C" 300)];
     subscriptions := [sub1];
     sent_entries :=
       [{| sent_id_ := 1; sent_created_at := 6; sent_updated_at := 6;
           subscription_id := 1; entry_id := 4; sent_at := 6 |}] |}.

(** A translation back end that answers at once. *)
Definition echo_provider : Translation.TranslationProvider World :=
  {| Translation.name := "echo";
     Translation.provider_translate :=
       fun text target _ w =>
         (Some {| Translation.success := true;
                  Translation.translated_text :=
                    ("[" ++ target ++ "] " ++ text)%string;
                  Translation.source_language := None;
                  Translation.error := None;
                  Translation.from_cache := false |}, S w);
     Translation.supports_language := fun _ => true |}.

Definition echo_service : Translation.TranslationService World :=
  {| Translation.provider := echo_provider;
     Translation.cache_ttl := 604800 |}.

Definition empty_cache : Cache.MemoryCache :=
  {| Cache.max_size := 10000; Cache._cache := [] |}.



End Scenario.

(** ** Further concrete installations *)

Module Examples.

(** A cache of capacity two, full. *)
Definition small_cache : Cache.MemoryCache :=
  {| Cache.max_size := 2;
     Cache._cache := [("a", ("1", None)); ("b", ("2", Some 50))] |}.

(** A cache built without capacity. *)
Definition no_cache : Cache.MemoryCache :=
  {| Cache.max_size := 0; Cache._cache := [] |}.




(** A server that never answers in time. *)
Definition down_http (u : string) (h : option string * option string)
           (w : Scenario.World) : HttpOutcome * Scenario.World :=
  (TimeoutError, S w).

Definition env_down : Env Scenario.World := Scenario.env down_http.

(** An installation that holds the four entries of [Scenario.store3],
    after its first request. *)
Definition st3 : Sys Scenario.World :=
  {| db := Scenario.store3; cache := None; world := 1%nat |}.

End Examples.

(** * Properties *)

(** ** Services: fetch, subscribe, settings *)

Ltac run_monad :=
  unfold bind, ret, query, exec, exec_, await, FeedService.now_; cbn beta iota zeta.

Section Services.

Variable World : Type.
Variable E : Env World.

Import FeedRepository SubscriptionRepository FeedService SubscriptionService.

Lemma sys_eta (st : Sys World) :
  {| db := db st; cache := cache st; world := world st |} = st.
Proof. destruct st; reflexivity. Qed.

Lemma update_where_map {A B} (g : A -> B) p (f : A -> A) l :
  (forall x, g (f x) = g x) -> map g (update_where p f l) = map g l.
Proof.
  intros H. unfold update_where. rewrite map_map. apply map_ext.
  intros x. destruct (p x); auto.
Qed.



End Services.

(** C5.  A 304 answer makes [_do_fetch] return a successful result with no
    entries that carries the validators it was called with, and the
    metadata update that [fetch_and_store] then issues leaves every stored
    [etag] and [last_modified] as it was: the updated row differs only in
    its fetch times, [updated_at], [error_count] and [last_error]. *)
Theorem not_modified_keeps_validators
        (World : Type) (E : Env World) (feed : Feed) (st : Sys World)
        (r : HttpResponse) (w' : World)
        (Hget : http_get E (url feed)
                  (conditional_headers (etag feed) (last_modified feed))
                  (world st) = (Responded r, w'))
        (H304 : status r = 304) :
  (forall u et lm,
      _do_fetch u et lm (Responded r)
      = {| fr_url := u; fr_success := true; fr_entries := [];
           fr_etag := et; fr_last_modified := lm;
           fr_feed_title := None; fr_feed_description := None;
           fr_feed_link := None; fr_error := None;
           fr_not_modified := true |}) /\
  let res := fst (FeedService.fetch_and_store E feed st) in
  let st' := snd (FeedService.fetch_and_store E feed st) in
  FeedService.ffr_success res = true /\
  FeedService.new_entries res = [] /\
  feeds (db st')
  = update_where (fun f => feed_id_ f =? feed_id_ feed)
      (FeedRepository.feed_metadata_row (clock E w') None None None None)
      (feeds (db st)) /\
  map etag (feeds (db st')) = map etag (feeds (db st)) /\
  map last_modified (feeds (db st')) = map last_modified (feeds (db st)) /\
  map url (feeds (db st')) = map url (feeds (db st)) /\
  map feed_title (feeds (db st')) = map feed_title (feeds (db st)) /\
  map feed_description (feeds (db st'))
  = map feed_description (feeds (db st)) /\
  map feed_is_active (feeds (db st')) = map feed_is_active (feeds (db st)) /\
  feed_entries (db st') = feed_entries (db st) /\
  subscriptions (db st') = subscriptions (db st) /\
  sent_entries (db st') = sent_entries (db st).
Proof.
  split.
  - intros u et lm. unfold _do_fetch. rewrite H304. reflexivity.
  - unfold FeedService.fetch_and_store, FeedService.fetch_feed.
    run_monad. rewrite Hget. cbn beta iota zeta.
    unfold _do_fetch. rewrite H304. cbn.
    repeat split; apply update_where_map; reflexivity.
Qed.

(** C8.  With a positive [max_feeds_per_channel] = N, [subscribe] on a
    channel that already has at least N active subscriptions answers
    [success = false] with the message "Maximum feeds (N) reached" and
    leaves the whole state as it was: no feed row and no subscription row
    is created. *)
Theorem subscribe_quota_reached
        (World : Type) (E : Env World) (st : Sys World)
        (p user_id c feed_url : string) (guild_id : option string)
        (HN : 0 < max_feeds_per_channel E)
        (Hcount : max_feeds_per_channel E
                  <= SubscriptionRepository.count_channel_subscriptions
                       (db st) p c) :
  let res := fst (SubscriptionService.subscribe E p user_id c feed_url
                    guild_id st) in
  let st' := snd (SubscriptionService.subscribe E p user_id c feed_url
                    guild_id st) in
  SubscriptionService.sr_success res = false /\
  SubscriptionService.sr_message res
  = ("Maximum feeds (" ++ str_of_int (max_feeds_per_channel E)
       ++ ") reached")%string /\
  SubscriptionService.sr_subscription res = None /\
  SubscriptionService.sr_feed res = None /\
  SubscriptionService.is_new res = false /\
  st' = st.
Proof.
  unfold SubscriptionService.subscribe.
  destruct (max_feeds_per_channel E >? 0) eqn:H0; [|lia].
  run_monad.
  destruct (SubscriptionRepository.count_channel_subscriptions (db st) p c
            >=? max_feeds_per_channel E) eqn:H1; [|lia].
  cbn. repeat split.
Qed.


(** C10.  The quota check of [subscribe] comes before the lookup of an
    existing subscription: on a channel whose count of active subscriptions
    equals the maximum, [subscribe] to a feed the channel is already
    subscribed to answers [success = false] and changes nothing, although
    the same call without a quota answers [success = true] with
    [is_new = false] and creates no row. *)
Theorem subscribe_quota_before_existing
        (World : Type) (E : Env World) (st : Sys World)
        (p user_id c feed_url : string) (guild_id : option string)
        (feed : Feed) (sub : Subscription)
        (Hfeed : FeedRepository.get_feed_by_url (db st) feed_url = Some feed)
        (Hsub : SubscriptionRepository.get_subscription (db st) p c
                  (feed_id_ feed) = Some sub)
        (Hactive : sub_is_active sub = true)
        (HN : 0 < max_feeds_per_channel E)
        (Hcount : SubscriptionRepository.count_channel_subscriptions
                    (db st) p c = max_feeds_per_channel E) :
  SubscriptionService.subscribe E p user_id c feed_url guild_id st
  = (SubscriptionService.quota_reached E, st) /\
  SubscriptionService.sr_success (SubscriptionService.quota_reached E)
  = false /\
  SubscriptionService.subscribe (with_max_feeds E 0) p user_id c feed_url
    guild_id st
  = ({| SubscriptionService.sr_success := true;
        SubscriptionService.sr_subscription := Some sub;
        SubscriptionService.sr_feed := Some feed;
        SubscriptionService.sr_message := "Already subscribed to this feed";
        SubscriptionService.is_new := false |}, st).
Proof.
  split; [|split; [reflexivity|]].
  - unfold SubscriptionService.subscribe.
    destruct (max_feeds_per_channel E >? 0) eqn:H0; [|lia].
    run_monad. rewrite Hcount, Z.geb_leb, Z.leb_refl. reflexivity.
  - unfold SubscriptionService.subscribe,
      SubscriptionService.subscribe_feed, FeedService.add_feed.
    cbn [with_max_feeds max_feeds_per_channel]. cbn [Z.gtb Z.compare].
    run_monad. rewrite Hfeed. cbn.
    unfold SubscriptionRepository.get_or_create_subscription.
    rewrite Hsub, Hactive. cbn. now rewrite sys_eta.
Qed.

(** ** Feed error counting *)

Lemma mark_errors_count k now err f :
  error_count (mark_errors k now err f) = error_count f + Z.of_nat k.
Proof.
  induction k as [|k IH]; simpl mark_errors.
  - simpl. lia.
  - unfold mark_error at 1. cbn [error_count]. rewrite IH. lia.
Qed.

(** C4.  Each [mark_error] adds one to [error_count] and records the
    error; once the count has reached 10 the feed is inactive; any
    [mark_success] sets [error_count] to 0 and clears [last_error], so [k]
    failed fetches followed by one successful fetch leave [error_count] at 0,
    and ten or more failed fetches in a row leave the feed inactive. *)
Theorem feed_error_count_lifecycle (f : Feed) :
  (forall now err,
      error_count (mark_error now err f) = error_count f + 1 /\
      last_error (mark_error now err f) = Some err /\
      (10 <= error_count (mark_error now err f) ->
       feed_is_active (mark_error now err f) = false)) /\
  (forall now et lm,
      error_count (mark_success now et lm f) = 0 /\
      last_error (mark_success now et lm f) = None) /\
  (forall k nows errs now et lm,
      error_count (mark_errors k nows errs f) = error_count f + Z.of_nat k /\
      error_count (mark_success now et lm (mark_errors k nows errs f)) = 0 /\
      last_error (mark_success now et lm (mark_errors k nows errs f)) = None) /\
  (forall k nows errs,
      0 <= error_count f -> (10 <= k)%nat ->
      feed_is_active (mark_errors k nows errs f) = false).
Proof.
  repeat split; try reflexivity.
  - cbn [mark_error error_count feed_is_active]. intros H.
    destruct (error_count f + 1 >=? 10) eqn:Hc; [reflexivity|lia].
  - apply mark_errors_count.
  - intros k nows errs H0 Hk. destruct k as [|k]; [lia|].
    simpl mark_errors. cbn [mark_error feed_is_active].
    rewrite mark_errors_count.
    destruct (error_count f + Z.of_nat k + 1 >=? 10) eqn:Hc; [reflexivity|lia].
Qed.

(** ** Bulk insert *)

Section BulkInsert.

Import FeedRepository.

Lemma get_entry_by_guid_stored s fid g :
  SubscriptionRepository.is_some (get_entry_by_guid s fid g)
  = guid_in g (stored_guids s fid).
Proof.
  unfold get_entry_by_guid, stored_guids, guid_in.
  induction (feed_entries s) as [|e l IH]; simpl; [reflexivity|].
  destruct (entry_feed_id e =? fid); simpl.
  - rewrite String.eqb_sym. destruct (String.eqb g (guid e)); simpl; auto.
  - exact IH.
Qed.

Lemma first_occurrences_ext seen seen' batch :
  (forall g, guid_in g seen = guid_in g seen') ->
  first_occurrences seen batch = first_occurrences seen' batch.
Proof.
  revert seen seen'. induction batch as [|d rest IH]; intros seen seen' H.
  - reflexivity.
  - simpl. rewrite <- H. destruct (guid_in (data_guid d) seen).
    + apply IH, H.
    + f_equal. apply IH. intros g. simpl. now rewrite H.
Qed.

Lemma guid_in_app g l1 l2 : guid_in g (l1 ++ l2) = guid_in g l1 || guid_in g l2.
Proof. unfold guid_in. apply existsb_app. Qed.

Lemma fold_max_nonneg ids : 0 <= fold_right Z.max 0 ids.
Proof. induction ids; simpl; lia. Qed.

Lemma fold_max_snoc ids n :
  fold_right Z.max 0 (ids ++ [n]) = Z.max (fold_right Z.max 0 ids) n.
Proof. induction ids as [|a l IH]; simpl; [lia|]. rewrite IH. lia. Qed.

Lemma next_id_snoc ids :
  next_id (ids ++ [next_id ids]) = next_id ids + 1.
Proof.
  unfold next_id. rewrite fold_max_snoc.
  pose proof (fold_max_nonneg ids). lia.
Qed.

Lemma stored_guids_create now fid d s :
  stored_guids (snd (create_entry now fid d s)) fid
  = stored_guids s fid ++ [data_guid d].
Proof.
  unfold stored_guids, create_entry. cbn [snd with_feed_entries feed_entries].
  rewrite filter_app, map_app. cbn [filter new_entry entry_feed_id].
  rewrite Z.eqb_refl. reflexivity.
Qed.

Lemma create_entries_bulk_spec now fid batch : forall s,
  create_entries_bulk now fid batch s =
  (let created :=
     number_entries now fid (next_id (map entry_id_ (feed_entries s)))
                    (first_occurrences (stored_guids s fid) batch) in
   (created, with_feed_entries s (feed_entries s ++ created))).
Proof.
  induction batch as [|d rest IH]; intros s.
  - simpl. rewrite app_nil_r. destruct s; reflexivity.
  - cbn [create_entries_bulk first_occurrences].
    pose proof (get_entry_by_guid_stored s fid (data_guid d)) as Hg.
    destruct (get_entry_by_guid s fid (data_guid d)) as [e|]; simpl in Hg;
      rewrite <- Hg.
    + apply IH.
    + pose proof (stored_guids_create now fid d s) as Hs.
      unfold create_entry in *. cbn [snd] in Hs.
      rewrite IH. cbn zeta. rewrite Hs.
      cbn [with_feed_entries feed_entries feeds subscriptions sent_entries].
      rewrite map_app. cbn [map new_entry entry_id_]. rewrite next_id_snoc.
      rewrite (first_occurrences_ext (stored_guids s fid ++ [data_guid d])
                 (data_guid d :: stored_guids s fid)).
      2:{ intros g. rewrite guid_in_app. simpl. unfold guid_in at 2. simpl.
          rewrite orb_false_r. apply orb_comm. }
      cbn [number_entries]. rewrite <- app_assoc. reflexivity.
Qed.


Lemma guid_in_In g seen : guid_in g seen = true <-> In g seen.
Proof.
  unfold guid_in. rewrite existsb_exists. split.
  - intros [x [Hx He]]. apply String.eqb_eq in He. now subst.
  - intros H. exists g. split; [exact H|apply String.eqb_refl].
Qed.

Lemma first_occurrences_guids batch : forall seen g,
  In g (map data_guid (first_occurrences seen batch)) <->
  In g (map data_guid batch) /\ ~ In g seen.
Proof.
  induction batch as [|d rest IH]; intros seen g; simpl.
  - tauto.
  - destruct (guid_in (data_guid d) seen) eqn:Hd.
    + apply guid_in_In in Hd. rewrite IH. split.
      * tauto.
      * intros [[He|Hr] Hn]; [subst; tauto|tauto].
    + assert (Hn : ~ In (data_guid d) seen).
      { intros Hi. apply guid_in_In in Hi. congruence. }
      simpl. rewrite IH. simpl. split.
      * intros [He|[Hr Hs]]; [subst; tauto|tauto].
      * intros [[He|Hr] Hs]; [tauto|].
        destruct (String.eqb_spec (data_guid d) g); [tauto|]. tauto.
Qed.

Lemma first_occurrences_NoDup batch : forall seen,
  NoDup (map data_guid (first_occurrences seen batch)).
Proof.
  induction batch as [|d rest IH]; intros seen; simpl.
  - constructor.
  - destruct (guid_in (data_guid d) seen); [apply IH|].
    simpl. constructor; [|apply IH].
    rewrite first_occurrences_guids. simpl. tauto.
Qed.

Lemma first_occurrences_first batch : forall seen d,
  In d (first_occurrences seen batch) ->
  find (fun x => String.eqb (data_guid x) (data_guid d)) batch = Some d.
Proof.
  induction batch as [|a rest IH]; intros seen d; simpl; [tauto|].
  destruct (guid_in (data_guid a) seen) eqn:Ha.
  - intros Hd. destruct (String.eqb_spec (data_guid a) (data_guid d)) as [He|Hne].
    + exfalso. apply guid_in_In in Ha.
      assert (Hg : In (data_guid d) (map data_guid (first_occurrences seen rest)))
        by (apply in_map; exact Hd).
      apply first_occurrences_guids in Hg. rewrite <- He in Hg. tauto.
    + eapply IH; eauto.
  - intros [He|Hd].
    + subst. now rewrite String.eqb_refl.
    + destruct (String.eqb_spec (data_guid a) (data_guid d)) as [He|Hne].
      * exfalso.
        assert (Hg : In (data_guid d)
                        (map data_guid
                           (first_occurrences (data_guid a :: seen) rest)))
          by (apply in_map; exact Hd).
        apply first_occurrences_guids in Hg. simpl in Hg. tauto.
      * eapply IH; eauto.
Qed.

Lemma number_entries_feed now fid ds : forall n,
  filter (fun e => entry_feed_id e =? fid) (number_entries now fid n ds)
  = number_entries now fid n ds.
Proof.
  induction ds as [|d rest IH]; intros n; simpl; [reflexivity|].
  rewrite Z.eqb_refl, IH. reflexivity.
Qed.

End BulkInsert.

(** C3.  [create_entries_bulk] stores, after the rows already there, exactly
    the first-occurrence records of the batch whose [(feed_id, guid)] is not
    stored yet, drops every later occurrence, and returns the rows it
    created. *)
Theorem create_entries_bulk_first_occurrences
        (now feed_id : Z) (batch : list EntryData) (s : Store) :
  let kept := first_occurrences (stored_guids s feed_id) batch in
  let created := fst (FeedRepository.create_entries_bulk now feed_id batch s) in
  let s' := snd (FeedRepository.create_entries_bulk now feed_id batch s) in
  created = number_entries now feed_id
              (next_id (map entry_id_ (feed_entries s))) kept /\
  feed_entries s' = feed_entries s ++ created /\
  filter (fun e => entry_feed_id e =? feed_id) (feed_entries s')
  = filter (fun e => entry_feed_id e =? feed_id) (feed_entries s) ++ created /\
  feeds s' = feeds s /\ subscriptions s' = subscriptions s /\
  sent_entries s' = sent_entries s /\
  NoDup (map data_guid kept) /\
  (forall g, In g (map data_guid kept) <->
             In g (map data_guid batch) /\ ~ In g (stored_guids s feed_id)) /\
  (forall d, In d kept ->
             find (fun x => String.eqb (data_guid x) (data_guid d)) batch
             = Some d).
Proof.
  cbn zeta. rewrite create_entries_bulk_spec. cbn [fst snd].
  cbn [FeedRepository.with_feed_entries feed_entries feeds subscriptions
       sent_entries].
  split; [reflexivity|]. split; [reflexivity|].
  split; [rewrite filter_app, number_entries_feed; reflexivity|].
  split; [reflexivity|]. split; [reflexivity|]. split; [reflexivity|].
  split; [apply first_occurrences_NoDup|].
  split; [intros g; apply first_occurrences_guids|].
  intros d; apply first_occurrences_first.
Qed.

(** ** The dispatch query *)

Section DispatchQuery.

Import SubscriptionRepository.

Lemma published_before_iff a b :
  published_before a b = true <-> newest_first_nulls_last a b.
Proof.
  unfold published_before, newest_first_nulls_last.
  destruct (published_at a), (published_at b); try tauto.
  - apply Z.leb_le.
  - split; [discriminate|tauto].
Qed.

Lemma newest_first_total a b :
  published_before a b = false -> newest_first_nulls_last b a.
Proof.
  unfold published_before, newest_first_nulls_last.
  destruct (published_at a), (published_at b); try discriminate; try tauto.
  intros H. apply Z.leb_gt in H. lia.
Qed.

Lemma newest_first_trans a b c :
  newest_first_nulls_last a b -> newest_first_nulls_last b c ->
  newest_first_nulls_last a c.
Proof.
  unfold newest_first_nulls_last.
  destruct (published_at a), (published_at b), (published_at c);
    try tauto; lia.
Qed.

Lemma insert_by_published_In e x l :
  In x (insert_by_published e l) <-> x = e \/ In x l.
Proof.
  induction l as [|h t IH]; simpl.
  - intuition auto.
  - destruct (published_before e h); simpl; [intuition auto|].
    rewrite IH. intuition auto.
Qed.

Lemma insert_by_published_length e l :
  List.length (insert_by_published e l) = S (List.length l).
Proof.
  induction l as [|h t IH]; simpl; [reflexivity|].
  destruct (published_before e h); simpl; [reflexivity|now rewrite IH].
Qed.

Lemma insert_by_published_sorted e l :
  StronglySorted newest_first_nulls_last l ->
  StronglySorted newest_first_nulls_last (insert_by_published e l).
Proof.
  induction 1 as [|h t Hs IH Hall]; simpl.
  - repeat constructor.
  - destruct (published_before e h) eqn:Hc.
    + apply published_before_iff in Hc.
      constructor; [constructor; assumption|].
      constructor; [assumption|].
      rewrite Forall_forall in *. intros x Hx.
      eapply newest_first_trans; eauto.
    + apply newest_first_total in Hc.
      constructor; [assumption|].
      rewrite Forall_forall in *. intros x Hx.
      apply insert_by_published_In in Hx. destruct Hx as [->|Hx]; auto.
Qed.

Lemma order_by_published_desc_In x l :
  In x (order_by_published_desc l) <-> In x l.
Proof.
  unfold order_by_published_desc.
  induction l as [|h t IH]; simpl; [tauto|].
  rewrite insert_by_published_In, IH. intuition auto.
Qed.

Lemma order_by_published_desc_length l :
  List.length (order_by_published_desc l) = List.length l.
Proof.
  unfold order_by_published_desc.
  induction l as [|h t IH]; simpl; [reflexivity|].
  now rewrite insert_by_published_length, IH.
Qed.

Lemma order_by_published_desc_sorted l :
  StronglySorted newest_first_nulls_last (order_by_published_desc l).
Proof.
  unfold order_by_published_desc.
  induction l as [|h t IH]; simpl; [constructor|].
  now apply insert_by_published_sorted.
Qed.

Lemma In_firstn {A} n : forall (l : list A) x, In x (firstn n l) -> In x l.
Proof.
  induction n as [|n IH]; intros [|h t] x; simpl; try tauto.
  intros [->|H]; auto.
Qed.

Lemma firstn_sorted {A} (R : A -> A -> Prop) n : forall l,
  StronglySorted R l -> StronglySorted R (firstn n l).
Proof.
  induction n as [|n IH]; intros l Hs; simpl; [constructor|].
  destruct l as [|h t]; [constructor|].
  inversion Hs as [|? ? Ht Hall]; subst.
  constructor; [now apply IH|].
  rewrite Forall_forall in *. intros x Hx.
  apply Hall. eapply In_firstn. exact Hx.
Qed.

Lemma limit_rows_In {A} n (x : A) l : In x (limit_rows n l) -> In x l.
Proof.
  unfold limit_rows. destruct (n <? 0); [tauto|]. apply In_firstn.
Qed.

Lemma limit_rows_length {A} n (l : list A) :
  0 <= n ->
  Z.of_nat (List.length (limit_rows n l)) = Z.min n (Z.of_nat (List.length l)).
Proof.
  intros Hn. unfold limit_rows.
  destruct (n <? 0) eqn:Hc; [apply Z.ltb_lt in Hc; lia|].
  rewrite length_firstn. lia.
Qed.

Lemma limit_rows_sorted {A} (R : A -> A -> Prop) n l :
  StronglySorted R l -> StronglySorted R (limit_rows n l).
Proof.
  unfold limit_rows. destruct (n <? 0); [tauto|]. apply firstn_sorted.
Qed.

Lemma existsb_find {A} (p : A -> bool) l :
  existsb p l = is_some (find p l).
Proof.
  induction l as [|a l IH]; simpl; [reflexivity|].
  destruct (p a); simpl; [reflexivity|exact IH].
Qed.

Lemma not_in_sent_is_entry_sent s sid e :
  not_in_sent s sid e = negb (is_entry_sent s sid (entry_id_ e)).
Proof.
  unfold not_in_sent, is_entry_sent, receipt_matches.
  now rewrite existsb_find.
Qed.

Lemma get_subscription_by_id_id s sid sub :
  get_subscription_by_id s sid = Some sub -> sub_id_ sub = sid.
Proof.
  unfold get_subscription_by_id. intros H.
  apply find_some in H. destruct H as [_ H]. now apply Z.eqb_eq in H.
Qed.

Lemma unsent_query_eligible s sid sub limit :
  get_subscription_by_id s sid = Some sub ->
  get_unsent_entries_for_subscription s sid limit
  = limit_rows limit
      (order_by_published_desc (filter (eligible s sub) (feed_entries s))).
Proof.
  intros H. unfold get_unsent_entries_for_subscription. rewrite H.
  apply get_subscription_by_id_id in H. subst sid.
  do 2 f_equal. apply filter_ext. intros e. unfold eligible.
  now rewrite not_in_sent_is_entry_sent.
Qed.

Lemma unsent_query_member s sid limit e :
  In e (get_unsent_entries_for_subscription s sid limit) ->
  exists sub,
    get_subscription_by_id s sid = Some sub /\
    In e (feed_entries s) /\
    entry_feed_id e = sub_feed_id sub /\
    is_entry_sent s sid (entry_id_ e) = false.
Proof.
  destruct (get_subscription_by_id s sid) as [sub|] eqn:Hs.
  - erewrite unsent_query_eligible by exact Hs. intros He.
    apply get_subscription_by_id_id in Hs.
    apply limit_rows_In in He.
    apply (proj1 (order_by_published_desc_In _ _)) in He.
    apply filter_In in He. destruct He as [Hin He].
    unfold eligible in He. apply andb_true_iff in He. destruct He as [Hf Hn].
    apply Z.eqb_eq in Hf. apply negb_true_iff in Hn. subst sid.
    exists sub. auto.
  - unfold get_unsent_entries_for_subscription. rewrite Hs. intros [].
Qed.

End DispatchQuery.

(** C7.  For an existing subscription and a limit [K], the dispatch query
    returns at most [K] rows (all the eligible ones when there are no more
    than [K]), each an entry of the subscription's feed without a receipt
    for the subscription, ordered newest first with entries lacking a
    publication time last; for an unknown subscription id it returns the
    empty list. *)
Theorem unsent_query_contract (s : Store) (sid K : Z) (HK : 0 <= K) :
  let r := SubscriptionRepository.get_unsent_entries_for_subscription s sid K in
  match SubscriptionRepository.get_subscription_by_id s sid with
  | None => r = []
  | Some sub =>
      Z.of_nat (List.length r) <= K /\
      Z.of_nat (List.length r)
      = Z.min K (Z.of_nat (List.length (filter (eligible s sub)
                                               (feed_entries s)))) /\
      (forall e, In e r ->
                 In e (feed_entries s) /\
                 entry_feed_id e = sub_feed_id sub /\
                 SubscriptionRepository.is_entry_sent s sid (entry_id_ e)
                 = false) /\
      StronglySorted newest_first_nulls_last r
  end.
Proof.
  cbn zeta.
  pose proof (fun e => @unsent_query_member s sid K e) as Hmem.
  destruct (SubscriptionRepository.get_subscription_by_id s sid) as [sub|] eqn:Hs.
  - split; [|split; [|split]].
    + erewrite unsent_query_eligible by exact Hs.
      pose proof (@limit_rows_length _ K
                    (order_by_published_desc
                       (filter (eligible s sub) (feed_entries s))) HK) as Hlen.
      lia.
    + erewrite unsent_query_eligible by exact Hs.
      rewrite limit_rows_length by exact HK.
      now rewrite order_by_published_desc_length.
    + intros e He. apply Hmem in He.
      destruct He as (sub' & Hs' & Hin & Hf & Hn).
      inversion Hs'; subst sub'. auto.
    + erewrite unsent_query_eligible by exact Hs.
      apply limit_rows_sorted, order_by_published_desc_sorted.
  - unfold SubscriptionRepository.get_unsent_entries_for_subscription.
    now rewrite Hs.
Qed.

(** ** Translation cache *)

Section CacheFacts.

Import Cache.

Lemma lookup_remove key items : lookup key (remove key items) = None.
Proof.
  unfold lookup, remove.
  induction items as [|[k v] l IH]; simpl; [reflexivity|].
  destruct (String.eqb k key) eqn:Hk; simpl; [exact IH|].
  rewrite Hk. exact IH.
Qed.

Lemma evict_keeps_absent key bound : forall items items',
  lookup key items = None -> evict bound items = Some items' ->
  lookup key items' = None.
Proof.
  induction items as [|[k v] l IH]; intros items' Hl He; simpl in He.
  - destruct (0 >=? bound); [discriminate|]. now inversion He.
  - destruct (_ >=? bound).
    + apply IH; [|exact He]. unfold lookup in *. simpl in Hl.
      destruct (String.eqb k key); [discriminate|exact Hl].
    + inversion He; subst. exact Hl.
Qed.

Lemma lookup_snoc_absent key v items :
  lookup key items = None -> lookup key (items ++ [(key, v)]) = Some v.
Proof.
  unfold lookup. induction items as [|[k x] l IH]; simpl; intros H.
  - now rewrite String.eqb_refl.
  - destruct (String.eqb k key); [discriminate|]. now apply IH.
Qed.

(** A value stored by [set] is read back by [get] until it expires. *)
Lemma get_after_set now now' key value ttl c b c' :
  set now key value (Some ttl) c = (Some b, c') ->
  now' <= now + ttl ->
  fst (get now' key c') = Some value.
Proof.
  unfold set. intros Hs Hle.
  destruct (evict (max_size c) (remove key (_cache c))) as [items|] eqn:He;
    [|discriminate].
  inversion Hs; subst; clear Hs.
  unfold get. cbn [_cache with_items].
  rewrite lookup_snoc_absent
    by (eapply evict_keeps_absent; [apply lookup_remove|exact He]).
  assert (Hx : expired now' (if ttl =? 0 then None else Some (now + ttl))
               = false).
  { unfold expired. destruct (ttl =? 0); [reflexivity|].
    apply andb_false_iff. right. rewrite Z.gtb_ltb. apply Z.ltb_ge. lia. }
  rewrite Hx. reflexivity.
Qed.

End CacheFacts.

(** C6.  With a cache configured: when a call of
    [TranslationService.translate] returns a successful, non-empty
    translation that did not come from the cache, the next call with the
    same text and target language, made before the time to live has run
    out, returns the same translated text with [from_cache = true]. *)
Theorem translate_twice_hits_cache
        (World : Type) (clock : World -> Z) (sha256 : string -> string)
        (svc : Translation.TranslationService World)
        (text target : string) (source source' : option string)
        (c : Cache.MemoryCache) (w w1 w2 : World)
        (r : Translation.TranslationResult) (c1 : option Cache.MemoryCache)
        (Hfirst : Translation.translate clock sha256 svc text target source
                    (Some c) w = (Some r, c1, w1))
        (Hok : Translation.success r = true)
        (Hne : Translation.translated_text r <> "")
        (Hmiss : Translation.from_cache r = false)
        (Hlive : clock w2 <= clock w1 + Translation.cache_ttl svc) :
  exists c2,
    Translation.translate clock sha256 svc text target source' c1 w2
    = (Some {| Translation.success := true;
               Translation.translated_text := Translation.translated_text r;
               Translation.source_language := None;
               Translation.error := None;
               Translation.from_cache := true |}, c2, w2).
Proof.
  unfold Translation.translate in *.
  destruct (Translation.blank text) eqn:Hb.
  { inversion Hfirst; subst. now elim Hne. }
  destruct (Cache.get (clock w) (Translation._cache_key sha256 svc text target) c)
    as [cached c0] eqn:Hg.
  destruct (truthy cached) eqn:Ht.
  { inversion Hfirst; subst. discriminate. }
  destruct (Translation.provider_translate (Translation.provider svc) text
              target source w) as [res wp] eqn:Hp.
  destruct res as [result|]; [|discriminate].
  destruct (Translation.success result
            && negb (String.eqb (Translation.translated_text result) ""))
    eqn:Hs.
  - destruct (Cache.set (clock wp)
                (Translation._cache_key sha256 svc text target)
                (Translation.translated_text result)
                (Some (Translation.cache_ttl svc)) c0) as [[b|] cs] eqn:Hset;
      [|discriminate].
    inversion Hfirst; subst; clear Hfirst.
    pose proof (@get_after_set _ (clock w2) _ _ _ _ _ _ Hset Hlive) as Hread.
    destruct (Cache.get (clock w2)
                (Translation._cache_key sha256 svc text target) cs)
      as [v c2] eqn:Hg2.
    cbn [fst] in Hread. subst v.
    apply andb_true_iff in Hs. destruct Hs as [_ Hs].
    cbn [truthy]. rewrite Hs. cbn [or_empty]. eexists. reflexivity.
  - inversion Hfirst; subst. rewrite Hok in Hs. cbn in Hs.
    apply negb_false_iff, String.eqb_eq in Hs. contradiction.
Qed.

(** ** Computations and the parts of the database they leave alone *)

Section Respects.

Variable World : Type.

Lemma bind_run {A B} (c : M World A) (k : A -> M World B) st :
  bind c k st = k (fst (c st)) (snd (c st)).
Proof. unfold bind. destruct (c st); reflexivity. Qed.

(** [R] relates the database before a computation to the one after. *)
Variable R : Store -> Store -> Prop.
Hypothesis R_refl : forall s, R s s.
Hypothesis R_trans : forall a b c, R a b -> R b c -> R a c.

Lemma respects_ret {A} (a : A) : respects (World:=World) R (ret a).
Proof. intros st. apply R_refl. Qed.

Lemma respects_bind {A B} (c : M World A) (k : A -> M World B) :
  respects (World:=World) R c -> (forall a, respects (World:=World) R (k a)) -> respects (World:=World) R (bind c k).
Proof.
  intros Hc Hk st. rewrite bind_run.
  eapply R_trans; [apply Hc|apply Hk].
Qed.

Lemma respects_query {A} (q : Store -> A) : respects (World:=World) R (query q).
Proof. intros st. apply R_refl. Qed.

Lemma respects_await {A} (f : World -> A * World) : respects (World:=World) R (await f).
Proof. intros st. unfold await. destruct (f (world st)). apply R_refl. Qed.

Lemma respects_exec {A} (f : Store -> A * Store) :
  (forall s, R s (snd (f s))) -> respects (World:=World) R (exec f).
Proof.
  intros H st. unfold exec. specialize (H (db st)).
  destruct (f (db st)). exact H.
Qed.

Lemma respects_exec_ (f : Store -> Store) :
  (forall s, R s (f s)) -> respects (World:=World) R (exec_ f).
Proof. intros H st. apply H. Qed.

Lemma respects_now (E : Env World) : respects (World:=World) R (FeedService.now_ E).
Proof. intros st. apply R_refl. Qed.

End Respects.

Lemma same_ledger_refl s : same_ledger s s.
Proof. split; reflexivity. Qed.

Lemma same_ledger_trans a b c :
  same_ledger a b -> same_ledger b c -> same_ledger a c.
Proof. unfold same_ledger. intros [? ?] [? ?]. split; congruence. Qed.

Lemma same_rows_refl s : same_rows s s.
Proof. repeat split; reflexivity. Qed.

Lemma same_rows_trans a b c : same_rows a b -> same_rows b c -> same_rows a c.
Proof.
  unfold same_rows. intros (?&?&?&?) (?&?&?&?). repeat split; congruence.
Qed.

Ltac respects_steps R_refl R_trans :=
  repeat first
    [ apply (@respects_ret _ _ R_refl)
    | apply (@respects_now _ _ R_refl)
    | apply (@respects_query _ _ R_refl)
    | apply (@respects_await _ _ R_refl)
    | apply (@respects_bind _ _ R_trans); [|intros ?]
    | match goal with |- respects _ (if ?b then _ else _) => destruct b end
    | match goal with |- respects _ (match ?x with _ => _ end) => destruct x end
    | match goal with |- respects _ (let '(_, _) := ?x in _) => destruct x end ].

Section FetchPhase.

Variable World : Type.
Variable E : Env World.

Import FeedService FeedRepository.

Lemma create_entries_bulk_ledger now fid batch s :
  same_ledger s (snd (create_entries_bulk now fid batch s)).
Proof.
  rewrite create_entries_bulk_spec. split; reflexivity.
Qed.

Lemma fetch_and_store_ledger feed :
  respects same_ledger (fetch_and_store E feed).
Proof.
  unfold fetch_and_store, fetch_feed.
  respects_steps same_ledger_refl same_ledger_trans.
  all: try (apply respects_exec_; intros s; unfold mark_feed_error;
            try destruct (get_feed_by_id _ _); split; reflexivity).
  apply respects_exec. intros s. apply create_entries_bulk_ledger.
Qed.

Lemma fetch_each_ledger fs : respects same_ledger (fetch_each E fs).
Proof.
  induction fs as [|f rest IH]; cbn [fetch_each].
  - apply respects_ret, same_ledger_refl.
  - apply (respects_bind same_ledger_trans);
      [apply fetch_and_store_ledger|intros r].
    apply (respects_bind same_ledger_trans); [exact IH|intros rs].
    apply respects_ret, same_ledger_refl.
Qed.

Lemma fetch_all_feeds_ledger : respects same_ledger (fetch_all_feeds E).
Proof.
  unfold fetch_all_feeds.
  apply (respects_bind same_ledger_trans);
    [apply respects_query, same_ledger_refl|intros fs].
  apply fetch_each_ledger.
Qed.

End FetchPhase.

(** ** The ledger during the sending phase *)

Lemma successful_app ev1 ev2 :
  successful (ev1 ++ ev2) = successful ev1 ++ successful ev2.
Proof. unfold successful. now rewrite filter_app, map_app. Qed.

Lemma successful_In sid eid events :
  In (sid, eid) (successful events) <-> In (sid, eid, Some true) events.
Proof.
  unfold successful. rewrite in_map_iff. split.
  - intros [[[a b] o] [Hk Hin]]. apply filter_In in Hin.
    destruct Hin as [Hin Ho]. cbn in Hk, Ho. inversion Hk; subst.
    destruct o as [[|]|]; try discriminate. exact Hin.
  - intros Hin. exists (sid, eid, Some true). split; [reflexivity|].
    apply filter_In. split; [exact Hin|reflexivity].
Qed.

Lemma ledger_grows_same_rows s s' : same_rows s s' -> ledger_grows s s' [].
Proof.
  intros (Hf & Hs & Hl & Hk). exists []. rewrite app_nil_r. auto.
Qed.

Lemma ledger_grows_app a b c ev1 ev2 :
  ledger_grows a b ev1 -> ledger_grows b c ev2 -> ledger_grows a c (ev1 ++ ev2).
Proof.
  intros (n1 & H1 & K1 & F1 & S1 & E1) (n2 & H2 & K2 & F2 & S2 & E2).
  exists (n1 ++ n2). rewrite H2, H1, <- app_assoc, map_app, successful_app.
  repeat split; congruence.
Qed.

Lemma is_entry_sent_In s sid eid :
  SubscriptionRepository.is_entry_sent s sid eid = true <->
  In (sid, eid) (map receipt_key (sent_entries s)).
Proof.
  unfold SubscriptionRepository.is_entry_sent.
  rewrite <- existsb_find, existsb_exists, in_map_iff.
  unfold SubscriptionRepository.receipt_matches, receipt_key.
  split; intros [r [H1 H2]]; exists r.
  - apply andb_true_iff in H2. destruct H2 as [Ha Hb].
    apply Z.eqb_eq in Ha, Hb. subst. auto.
  - inversion H1; subst. rewrite !Z.eqb_refl. auto.
Qed.

Lemma is_entry_sent_false s sid eid :
  SubscriptionRepository.is_entry_sent s sid eid = false <->
  ~ In (sid, eid) (map receipt_key (sent_entries s)).
Proof.
  rewrite <- is_entry_sent_In.
  destruct (SubscriptionRepository.is_entry_sent s sid eid);
    split; congruence.
Qed.

Section SendingPhase.

Variable World : Type.
Variable E : Env World.

Import Dispatcher FeedRepository SubscriptionRepository.

Lemma call_translate_respects (R : Store -> Store -> Prop)
      (R_refl : forall s, R s s) svc text tl :
  respects R (call_translate E svc text tl).
Proof.
  intros st. unfold call_translate.
  destruct (Translation.translate _ _ _ _ _ _ _ _) as [[r c] w].
  apply R_refl.
Qed.

Lemma update_entry_translation_rows t id tt st lang s :
  same_rows s (update_entry_translation t id tt st lang s).
Proof.
  unfold same_rows, update_entry_translation.
  cbn [with_feed_entries feeds subscriptions sent_entries feed_entries].
  repeat split. apply update_where_map. reflexivity.
Qed.

Lemma create_message_rows entry sub :
  respects same_rows (_create_message E entry sub).
Proof.
  unfold _create_message, _translate_entry, translate_fields.
  respects_steps same_rows_refl same_rows_trans.
  all: try apply (@call_translate_respects same_rows same_rows_refl).
  all: apply respects_exec_; intros s; apply update_entry_translation_rows.
Qed.

Lemma send_entry_run adapter sub entry st :
  send_entry E adapter sub entry st =
  let '(message, st1) := _create_message E entry sub st in
  let '(o, w') := adapter (platform_channel_id sub) message (world st1) in
  let event := (sub_id_ sub, entry_id_ entry, o) in
  match o with
  | Some true =>
      ((1, event),
       {| db := snd (mark_entry_sent (clock E w') (sub_id_ sub)
                       (entry_id_ entry) (db st1));
          cache := cache st1; world := sleep E w' |})
  | Some false =>
      ((0, event),
       {| db := db st1; cache := cache st1; world := sleep E w' |})
  | None =>
      ((0, event), {| db := db st1; cache := cache st1; world := w' |})
  end.
Proof.
  unfold send_entry, bind.
  destruct (_create_message E entry sub st) as [message st1].
  unfold await at 1.
  destruct (adapter (platform_channel_id sub) message (world st1))
    as [o w'].
  destruct o as [[|]|]; reflexivity.
Qed.

Lemma send_entry_spec adapter sub entry st :
  let r := send_entry E adapter sub entry st in
  ledger_grows (db st) (db (snd r)) [snd (fst r)] /\
  fst (snd (fst r)) = (sub_id_ sub, entry_id_ entry) /\
  fst (fst r) = Z.of_nat (List.length (successful [snd (fst r)])).
Proof.
  cbn zeta. rewrite send_entry_run.
  pose proof (create_message_rows entry sub st) as Hrows.
  destruct (_create_message E entry sub st) as [message st1].
  cbn [snd] in Hrows.
  destruct (adapter (platform_channel_id sub) message (world st1))
    as [o w'].
  destruct o as [[|]|]; cbn [fst snd db].
  - split; [|split; reflexivity].
    destruct Hrows as (Hf & Hs & Hl & Hk).
    eexists [_]. unfold mark_entry_sent.
    cbn [snd with_sent_entries sent_entries feeds subscriptions
             feed_entries].
    rewrite Hl. repeat split; auto.
  - split; [|split; reflexivity]. now apply ledger_grows_same_rows.
  - split; [|split; reflexivity]. now apply ledger_grows_same_rows.
Qed.

Lemma send_entries_spec adapter sub entries : forall st,
  let r := send_entries E adapter sub entries st in
  ledger_grows (db st) (db (snd r)) (snd (fst r)) /\
  map (fun ev => fst ev) (snd (fst r))
  = map (fun e => (sub_id_ sub, entry_id_ e)) entries /\
  fst (fst r) = Z.of_nat (List.length (successful (snd (fst r)))).
Proof.
  induction entries as [|entry rest IH]; intros st; cbn zeta.
  - cbn. split; [apply ledger_grows_same_rows, same_rows_refl|auto].
  - cbn [send_entries]. rewrite bind_run.
    destruct (send_entry_spec adapter sub entry st) as (H1 & H2 & H3).
    destruct (send_entry E adapter sub entry st) as [[sent event] st1].
    cbn [fst snd] in *. rewrite bind_run.
    destruct (IH st1) as (I1 & I2 & I3).
    destruct (send_entries E adapter sub rest st1) as [[cnt events] st2].
    cbn [fst snd ret] in *. split; [|split].
    + apply (ledger_grows_app H1 I1).
    + cbn [map]. now rewrite H2, I2.
    + change (event :: events) with ([event] ++ events).
      rewrite successful_app, length_app, H3, I3. lia.
Qed.

(** What one subscription's turn does. *)
Lemma dispatch_to_subscription_spec sub st :
  let r := _dispatch_to_subscription E sub st in
  ledger_grows (db st) (db (snd r)) (snd (fst r)) /\
  fst (fst r) = Z.of_nat (List.length (successful (snd (fst r)))) /\
  (forall ev, In ev (snd (fst r)) ->
              fst (fst ev) = sub_id_ sub /\
              is_entry_sent (db st) (fst (fst ev)) (snd (fst ev)) = false) /\
  (forall adapter, _adapters E (platform sub) = Some adapter ->
     map (fun ev => fst ev) (snd (fst r))
     = map (fun e => (sub_id_ sub, entry_id_ e))
           (get_unsent_entries_for_subscription (db st) (sub_id_ sub) 10)).
Proof.
  cbn zeta. unfold _dispatch_to_subscription.
  destruct (_adapters E (platform sub)) as [adapter|].
  - rewrite bind_run. unfold query. cbn [fst snd].
    destruct (send_entries_spec adapter sub
                (get_unsent_entries_for_subscription (db st) (sub_id_ sub) 10)
                st) as (H1 & H2 & H3).
    split; [exact H1|]. split; [exact H3|]. split.
    + intros ev Hev.
      assert (Hk : In (fst ev)
                      (map (fun e => (sub_id_ sub, entry_id_ e))
                           (get_unsent_entries_for_subscription (db st)
                              (sub_id_ sub) 10))).
      { rewrite <- H2. apply in_map_iff. exists ev. auto. }
      apply in_map_iff in Hk. destruct Hk as [e [Hk He]].
      rewrite <- Hk. cbn [fst snd]. split; [reflexivity|].
      apply unsent_query_member in He.
      destruct He as (sub' & _ & _ & _ & Hn). exact Hn.
    + intros a Ha. inversion Ha; subst. exact H2.
  - cbn. split; [apply ledger_grows_same_rows, same_rows_refl|].
    split; [reflexivity|]. split; [intros ev []|intros a Ha; discriminate].
Qed.

End SendingPhase.

Section QueryFrame.

Import SubscriptionRepository.










End QueryFrame.

Section Cycle.

Variable World : Type.
Variable E : Env World.

Import Dispatcher SubscriptionRepository.

Lemma unsent_before s s' events sid eid :
  ledger_grows s s' events ->
  is_entry_sent s' sid eid = false -> is_entry_sent s sid eid = false.
Proof.
  intros (new & Hn & _) H. apply is_entry_sent_false.
  apply is_entry_sent_false in H. rewrite Hn, map_app, in_app_iff in H.
  tauto.
Qed.

Lemma dispatch_each_spec subs : forall st,
  let r := dispatch_each E subs st in
  ledger_grows (db st) (db (snd r)) (snd (fst r)) /\
  fst (fst r) = Z.of_nat (List.length (successful (snd (fst r)))) /\
  (forall ev, In ev (snd (fst r)) ->
              is_entry_sent (db st) (fst (fst ev)) (snd (fst ev)) = false).
Proof.
  induction subs as [|sub rest IH]; intros st; cbn zeta.
  - cbn. split; [apply ledger_grows_same_rows, same_rows_refl|].
    split; [reflexivity|intros ev []].
  - cbn [dispatch_each]. rewrite bind_run.
    destruct (dispatch_to_subscription_spec E sub st) as (H1 & H2 & H3 & _).
    destruct (_dispatch_to_subscription E sub st) as [[sent events] st1].
    cbn [fst snd] in *. rewrite bind_run.
    destruct (IH st1) as (I1 & I2 & I3).
    destruct (dispatch_each E rest st1) as [[sent' events'] st2].
    cbn [fst snd ret] in *. split; [|split].
    + apply (ledger_grows_app H1 I1).
    + rewrite successful_app, length_app, H2, I2. lia.
    + intros ev Hev. apply in_app_iff in Hev. destruct Hev as [Hev|Hev].
      * now apply H3.
      * eapply unsent_before; [exact H1|now apply I3].
Qed.

Lemma bool_eq_iff (a b : bool) : (a = true <-> b = true) -> a = b.
Proof. destruct a, b; intuition congruence. Qed.




End Cycle.

(** ** The dispatch cycle *)

Section DispatchCycle.

Variable World : Type.
Variable E : Env World.

Import Dispatcher SubscriptionRepository.

(** What a whole cycle does to the ledger. *)
Lemma dispatch_once_spec st :
  let r := dispatch_once E st in
  (exists new,
      sent_entries (db (snd r)) = sent_entries (db st) ++ new /\
      map receipt_key new = successful (snd (fst r)) /\
      messages_sent (fst (fst r)) = Z.of_nat (List.length new)) /\
  (forall ev, In ev (snd (fst r)) ->
              is_entry_sent (db st) (fst (fst ev)) (snd (fst ev)) = false).
Proof.
  cbn zeta. unfold dispatch_once.
  pose proof (fetch_all_feeds_ledger E st) as [_ Hsent].
  destruct (FeedService.fetch_all_feeds E st) as [frs st1].
  cbn [snd] in Hsent.
  destruct (collect_new_entries frs) as [|e0 fresh].
  - cbn [fst snd db]. split; [|intros ev []].
    exists []. now rewrite app_nil_r.
  - unfold query.
    destruct (dispatch_each_spec E (get_all_active_subscriptions (db st1))
                st1) as (H1 & H2 & H3).
    destruct (dispatch_each E (get_all_active_subscriptions (db st1)) st1)
      as [[sent events] st3].
    cbn [fst snd messages_sent] in *. split.
    + destruct H1 as (new & Hn & Hk & _). exists new.
      rewrite Hn, Hsent, H2, <- Hk, length_map. auto.
    + intros ev Hev. apply H3 in Hev.
      apply is_entry_sent_false. apply is_entry_sent_false in Hev.
      now rewrite <- Hsent.
Qed.




End DispatchCycle.



(** ** The properties on the small installation *)




(** A batch with a stored guid and a repeated guid: only D (once) and E are
    stored. *)
Lemma create_entries_bulk_first_occurrences_witness :
  map guid (fst (FeedRepository.create_entries_bulk 7 1
                   [Scenario.item "A" 1; Scenario.item "D" 2;
                    Scenario.item "D" 3; Scenario.item "E" 4]
                   Scenario.store3))
  = ["D"; "E"] /\
  NoDup (map data_guid
           (first_occurrences (stored_guids Scenario.store3 1)
              [Scenario.item "A" 1; Scenario.item "D" 2;
               Scenario.item "D" 3; Scenario.item "E" 4])).
Proof.
  pose proof (create_entries_bulk_first_occurrences 7 1
                [Scenario.item "A" 1; Scenario.item "D" 2;
                 Scenario.item "D" 3; Scenario.item "E" 4]
                Scenario.store3) as H.
  cbn zeta in H. destruct H as (Hc & _ & _ & _ & _ & _ & Hnd & _).
  split; [rewrite Hc; reflexivity|exact Hnd].
Defined.

(** Ten failed fetches deactivate the feed; one success resets the count. *)
Lemma feed_error_count_lifecycle_witness :
  0 <= error_count Scenario.feed1 /\
  feed_is_active
    (mark_errors 10 (fun i => Z.of_nat i) (fun _ => "HTTP 500: Server Error")
                 Scenario.feed1) = false /\
  error_count
    (mark_success 11 None None
       (mark_errors 10 (fun i => Z.of_nat i)
                    (fun _ => "HTTP 500: Server Error") Scenario.feed1)) = 0.
Proof.
  assert (H0 : 0 <= error_count Scenario.feed1) by (vm_compute; discriminate).
  destruct (feed_error_count_lifecycle Scenario.feed1)
    as (_ & _ & Hk & Hten).
  split; [exact H0|]. split.
  - apply Hten; [exact H0|apply Nat.le_refl].
  - apply Hk.
Defined.

(** The second request to the quiet server is answered 304 and the stored
    etag stays [v1]. *)
Lemma not_modified_keeps_validators_witness :
  map etag (feeds (db (snd (FeedService.fetch_and_store Scenario.env_quiet
                              Scenario.feed1 Scenario.st1))))
  = [Some "v1"] /\
  FeedService.new_entries
    (fst (FeedService.fetch_and_store Scenario.env_quiet Scenario.feed1
            Scenario.st1)) = [].
Proof.
  assert (Hget : http_get Scenario.env_quiet (url Scenario.feed1)
                   (conditional_headers (etag Scenario.feed1)
                      (last_modified Scenario.feed1))
                   (world Scenario.st1)
                 = (Responded Scenario.not_modified_response, 2%nat))
    by reflexivity.
  assert (H304 : status Scenario.not_modified_response = 304) by reflexivity.
  destruct (not_modified_keeps_validators Scenario.env_quiet Scenario.feed1
              Scenario.st1 Hget H304) as (_ & H).
  cbn zeta in H. destruct H as (_ & Hnew & _ & Het & _).
  split; [rewrite Het; reflexivity|exact Hnew].
Defined.

(** The second translation of the same text is served from the cache. *)
Lemma translate_twice_hits_cache_witness :
  exists c2,
    Translation.translate (fun w => Z.of_nat w) (fun text => text)
      Scenario.echo_service "Hello World" "de" None
      (snd (fst (Translation.translate (fun w => Z.of_nat w)
                   (fun text => text) Scenario.echo_service "Hello World"
                   "de" None (Some Scenario.empty_cache) 0%nat)))
      5%nat
    = (Some {| Translation.success := true;
               Translation.translated_text := "[de] Hello World";
               Translation.source_language := None;
               Translation.error := None;
               Translation.from_cache := true |}, c2, 5%nat).
Proof.
  eapply (@translate_twice_hits_cache Scenario.World
            (fun w => Z.of_nat w) (fun text => text) Scenario.echo_service
            "Hello World" "de" None None Scenario.empty_cache 0%nat 1%nat
            5%nat
            {| Translation.success := true;
               Translation.translated_text := "[de] Hello World";
               Translation.source_language := None;
               Translation.error := None;
               Translation.from_cache := false |}).
  - vm_compute. reflexivity.
  - reflexivity.
  - discriminate.
  - reflexivity.
  - vm_compute. discriminate.
Defined.

(** The query on the store with three unsent entries, limit 10. *)
Lemma unsent_query_contract_witness :
  0 <= 10 /\
  StronglySorted newest_first_nulls_last
    (SubscriptionRepository.get_unsent_entries_for_subscription
       Scenario.store3 1 10) /\
  Z.of_nat (List.length
              (SubscriptionRepository.get_unsent_entries_for_subscription
                 Scenario.store3 1 10)) <= 10.
Proof.
  assert (HK : 0 <= 10) by (vm_compute; discriminate).
  pose proof (@unsent_query_contract Scenario.store3 1 10 HK) as H.
  cbn zeta in H.
  change (SubscriptionRepository.get_subscription_by_id Scenario.store3 1)
    with (Some Scenario.sub1) in H.
  destruct H as (Hlen & _ & _ & Hs).
  split; [exact HK|]. split; [exact Hs|exact Hlen].
Defined.

(** A second feed on a channel limited to one. *)
Lemma subscribe_quota_reached_witness :
  SubscriptionService.sr_message
    (fst (SubscriptionService.subscribe
            (with_max_feeds Scenario.env_quiet 1) "discord" "1" "42"
            "https://example.org/other" None Scenario.st0))
  = "Maximum feeds (1) reached" /\
  snd (SubscriptionService.subscribe
         (with_max_feeds Scenario.env_quiet 1) "discord" "1" "42"
         "https://example.org/other" None Scenario.st0)
  = Scenario.st0.
Proof.
  assert (HN : 0 < max_feeds_per_channel (with_max_feeds Scenario.env_quiet 1))
    by (vm_compute; reflexivity).
  assert (Hc : max_feeds_per_channel (with_max_feeds Scenario.env_quiet 1)
               <= SubscriptionRepository.count_channel_subscriptions
                    (db Scenario.st0) "discord" "42")
    by (vm_compute; discriminate).
  pose proof (@subscribe_quota_reached Scenario.World
                (with_max_feeds Scenario.env_quiet 1) Scenario.st0
                "discord" "1" "42" "https://example.org/other" None HN Hc)
    as H.
  cbn zeta in H. destruct H as (_ & Hm & _ & _ & _ & Hst).
  split; [rewrite Hm; reflexivity|exact Hst].
Defined.


(** Subscribing again to the one feed of a channel limited to one. *)
Lemma subscribe_quota_before_existing_witness :
  SubscriptionService.sr_success
    (fst (SubscriptionService.subscribe
            (with_max_feeds Scenario.env_quiet 1) "discord" "1" "42"
            Scenario.feed_url None Scenario.st0)) = false /\
  SubscriptionService.is_new
    (fst (SubscriptionService.subscribe
            (with_max_feeds (with_max_feeds Scenario.env_quiet 1) 0)
            "discord" "1" "42" Scenario.feed_url None Scenario.st0)) = false.
Proof.
  destruct (@subscribe_quota_before_existing Scenario.World
              (with_max_feeds Scenario.env_quiet 1) Scenario.st0
              "discord" "1" "42" Scenario.feed_url None
              Scenario.feed1 Scenario.sub1)
    as (H1 & H2 & H3); try reflexivity.
  rewrite H1, H3. split; reflexivity.
Defined.

(** * Further properties of the code *)

(** ** The in-memory cache *)

(** Turn the boolean comparisons among the hypotheses into propositions. *)
Ltac zbool :=
  repeat match goal with
  | H : (_ >=? _) = _ |- _ => rewrite Z.geb_leb in H
  | H : (_ >? _) = _ |- _ => rewrite Z.gtb_ltb in H
  | H : (_ <=? _) = true |- _ => apply Z.leb_le in H
  | H : (_ <=? _) = false |- _ => apply Z.leb_gt in H
  | H : (_ <? _) = true |- _ => apply Z.ltb_lt in H
  | H : (_ <? _) = false |- _ => apply Z.ltb_ge in H
  | H : (_ =? _) = true |- _ => apply Z.eqb_eq in H
  | H : (_ =? _) = false |- _ => apply Z.eqb_neq in H
  end.

Section CacheBehaviour.

Import Cache.

Lemma evict_none_iff bound items : evict bound items = None <-> bound <= 0.
Proof.
  induction items as [|kv rest IH]; cbn [evict].
  - destruct (0 >=? bound) eqn:Hb; zbool; split; intros H;
      first [reflexivity|discriminate|lia|exfalso; lia].
  - destruct (Z.of_nat (List.length (kv :: rest)) >=? bound) eqn:Hb.
    + rewrite IH. tauto.
    + split; [discriminate|]. cbn [List.length] in Hb. intros H. exfalso. zbool. lia.
Qed.

Lemma evict_suffix bound : forall items items',
  evict bound items = Some items' ->
  Z.of_nat (List.length items') < bound /\
  exists dropped, items = dropped ++ items'.
Proof.
  induction items as [|kv rest IH]; intros items' H; cbn [evict] in H.
  - destruct (0 >=? bound) eqn:Hb; [discriminate|]. inversion H; subst.
    zbool. split; [cbn; lia|exists []; reflexivity].
  - destruct (Z.of_nat (List.length (kv :: rest)) >=? bound) eqn:Hb.
    + destruct (IH _ H) as [Hl [d Hd]]. split; [exact Hl|].
      exists (kv :: d). now rewrite Hd.
    + inversion H; subst. zbool. split; [lia|exists []; reflexivity].
Qed.

Lemma evict_keeps_last bound x : forall items,
  2 <= bound ->
  exists kept dropped,
    evict bound (items ++ [x]) = Some (kept ++ [x]) /\
    items = dropped ++ kept.
Proof.
  induction items as [|kv rest IH]; intros Hb.
  - exists [], []. cbn. destruct (1 >=? bound) eqn:H1; zbool; [lia|]. auto.
  - destruct (IH Hb) as (kept & dropped & He & Hd).
    cbn [app evict].
    destruct (Z.of_nat (List.length (kv :: rest ++ [x])) >=? bound).
    + exists kept, (kv :: dropped). split; [exact He|]. now rewrite Hd.
    + exists (kv :: rest), []. auto.
Qed.

Lemma lookup_app_absent key items more :
  lookup key items = None -> lookup key (items ++ more) = lookup key more.
Proof.
  unfold lookup. induction items as [|[k v] l IH]; cbn; intros H; [reflexivity|].
  destruct (String.eqb k key); [discriminate|]. now apply IH.
Qed.

Lemma lookup_app_present key items more e :
  lookup key items = Some e -> lookup key (items ++ more) = Some e.
Proof.
  unfold lookup. induction items as [|[k v] l IH]; cbn; intros H;
    [discriminate|].
  destruct (String.eqb k key); [exact H|]. now apply IH.
Qed.

Lemma lookup_suffix_absent key dropped kept :
  lookup key (dropped ++ kept) = None -> lookup key kept = None.
Proof.
  unfold lookup. induction dropped as [|[k v] l IH]; cbn; intros H; [exact H|].
  destruct (String.eqb k key); [discriminate|]. now apply IH.
Qed.

Lemma lookup_remove_other key key' items :
  key <> key' -> lookup key (remove key' items) = lookup key items.
Proof.
  intros Hne. unfold lookup, remove.
  induction items as [|[k v] l IH]; cbn; [reflexivity|].
  destruct (String.eqb_spec k key') as [->|Hk']; cbn.
  - destruct (String.eqb_spec key' key); [congruence|exact IH].
  - destruct (String.eqb k key); [reflexivity|exact IH].
Qed.

End CacheBehaviour.

(** X1.  A cache built with room for at least one item accepts every [set]:
    the call returns true, the item is stored as the most recent one with
    its expiry time, and the cache never holds more than [max_size] items
    afterwards, whatever it held before. *)
Theorem cache_set_within_capacity
        (now : Z) (key value : string) (ttl : option Z) (c : Cache.MemoryCache)
        (Hroom : 1 <= Cache.max_size c) :
  fst (Cache.set now key value ttl c) = Some true /\
  Cache.size (snd (Cache.set now key value ttl c)) <= Cache.max_size c /\
  Cache.max_size (snd (Cache.set now key value ttl c)) = Cache.max_size c /\
  Cache.lookup key (Cache._cache (snd (Cache.set now key value ttl c)))
  = Some (value,
          match ttl with
          | Some t => if t =? 0 then None else Some (now + t)
          | None => None
          end) /\
  exists older,
    Cache._cache (snd (Cache.set now key value ttl c))
    = older ++ [(key, (value,
                       match ttl with
                       | Some t => if t =? 0 then None else Some (now + t)
                       | None => None
                       end))].
Proof.
  unfold Cache.set, Cache.size.
  destruct (Cache.evict (Cache.max_size c)
              (Cache.remove key (Cache._cache c))) as [items|] eqn:He.
  - cbn [fst snd Cache._cache Cache.max_size Cache.with_items].
    destruct (evict_suffix _ _ He) as [Hl [d Hd]].
    split; [reflexivity|]. split; [rewrite length_app; cbn; lia|].
    split; [reflexivity|]. split; [|eexists; reflexivity].
    apply lookup_snoc_absent. eapply lookup_suffix_absent.
    rewrite <- Hd. apply lookup_remove.
  - apply evict_none_iff in He. lia.
Qed.

(** X2.  A cache built with [max_size] 0 or less cannot store anything:
    every [set] raises, and it leaves the cache empty. *)
Theorem cache_set_without_capacity
        (now : Z) (key value : string) (ttl : option Z) (c : Cache.MemoryCache)
        (Hnone : Cache.max_size c <= 0) :
  fst (Cache.set now key value ttl c) = None /\
  Cache._cache (snd (Cache.set now key value ttl c)) = [].
Proof.
  unfold Cache.set.
  destruct (Cache.evict (Cache.max_size c)
              (Cache.remove key (Cache._cache c))) as [items|] eqn:He.
  - assert (Hx : Cache.evict (Cache.max_size c)
                   (Cache.remove key (Cache._cache c)) <> None) by congruence.
    rewrite evict_none_iff in Hx. lia.
  - split; reflexivity.
Qed.

(** X3.  Least-recently-used order: an item that has just been read stays
    in a cache of capacity at least two when another key is stored next,
    with its value and expiry time unchanged. *)
Theorem cache_read_item_survives_next_set
        (now now' : Z) (key key' value value' : string) (ttl : option Z)
        (c : Cache.MemoryCache)
        (Hhit : fst (Cache.get now key c) = Some value)
        (Hother : key <> key')
        (Hroom : 2 <= Cache.max_size c) :
  Cache.lookup key
    (Cache._cache (snd (Cache.set now' key' value' ttl
                          (snd (Cache.get now key c)))))
  = Cache.lookup key (Cache._cache c) /\
  exists expires_at,
    Cache.lookup key (Cache._cache c) = Some (value, expires_at).
Proof.
  unfold Cache.get in *.
  destruct (Cache.lookup key (Cache._cache c)) as [[v e]|] eqn:Hl;
    [|discriminate].
  destruct (Cache.expired now e); [discriminate|].
  cbn [fst snd] in *. inversion Hhit; subst v. split; [|eauto].
  unfold Cache.set. cbn [Cache._cache Cache.max_size Cache.with_items].
  assert (Hrm : Cache.remove key'
                  (Cache.remove key (Cache._cache c) ++ [(key, (value, e))])
                = Cache.remove key' (Cache.remove key (Cache._cache c))
                  ++ [(key, (value, e))]).
  { unfold Cache.remove at 1. rewrite filter_app. cbn [filter fst].
    destruct (String.eqb_spec key key'); [contradiction|reflexivity]. }
  rewrite Hrm.
  destruct (@evict_keeps_last (Cache.max_size c) (key, (value, e))
              (Cache.remove key' (Cache.remove key (Cache._cache c))) Hroom)
    as (kept & dropped & He & Hd).
  rewrite He. cbn [snd Cache._cache Cache.with_items].
  rewrite <- app_assoc.
  rewrite lookup_app_absent.
  - cbn. unfold Cache.lookup. cbn. now rewrite String.eqb_refl.
  - eapply lookup_suffix_absent. rewrite <- Hd.
    rewrite lookup_remove_other by exact Hother. apply lookup_remove.
Qed.

(** X4.  [delete] reports whether the key was stored, and afterwards the key
    is gone, whatever the time, while every other key keeps its item. *)
Theorem cache_delete_removes_key
        (key : string) (c : Cache.MemoryCache) :
  fst (Cache.delete key c)
  = SubscriptionRepository.is_some (Cache.lookup key (Cache._cache c)) /\
  (forall now, Cache.get now key (snd (Cache.delete key c))
               = (None, snd (Cache.delete key c))) /\
  (forall key', key' <> key ->
     Cache.lookup key' (Cache._cache (snd (Cache.delete key c)))
     = Cache.lookup key' (Cache._cache c)).
Proof.
  unfold Cache.delete.
  destruct (Cache.lookup key (Cache._cache c)) as [e|] eqn:Hl;
    cbn [fst snd SubscriptionRepository.is_some].
  - split; [reflexivity|]. split.
    + intros now. unfold Cache.get. cbn [Cache._cache Cache.with_items].
      now rewrite lookup_remove.
    + intros key' Hne. cbn [Cache._cache Cache.with_items].
      now apply lookup_remove_other.
  - split; [reflexivity|]. split.
    + intros now. unfold Cache.get. now rewrite Hl.
    + reflexivity.
Qed.

(** X5.  [exists] agrees with [get]: it answers true exactly when [get], at
    the same time, returns a value.  An item found expired is removed by
    either call, and an [exists] that answers true changes nothing. *)
Theorem cache_exists_agrees_with_get
        (now : Z) (key : string) (c : Cache.MemoryCache) :
  fst (Cache.exists_ now key c)
  = SubscriptionRepository.is_some (fst (Cache.get now key c)) /\
  (fst (Cache.exists_ now key c) = true -> snd (Cache.exists_ now key c) = c) /\
  (forall value expires_at,
      Cache.lookup key (Cache._cache c) = Some (value, expires_at) ->
      Cache.expired now expires_at = true ->
      Cache.lookup key (Cache._cache (snd (Cache.exists_ now key c))) = None /\
      Cache.lookup key (Cache._cache (snd (Cache.get now key c))) = None).
Proof.
  unfold Cache.exists_, Cache.get.
  destruct (Cache.lookup key (Cache._cache c)) as [[v e]|] eqn:Hl.
  - destruct (Cache.expired now e) eqn:Hx; cbn [fst snd].
    + split; [reflexivity|]. split; [discriminate|].
      intros value expires_at _ _. cbn [Cache._cache Cache.with_items].
      split; apply lookup_remove.
    + split; [reflexivity|]. split; [reflexivity|].
      intros value expires_at Heq Hexp. inversion Heq; subst. congruence.
  - cbn [fst snd]. split; [reflexivity|]. split; [discriminate|].
    intros value expires_at Heq. discriminate.
Qed.

(** ** Translation through the cache *)



(** ** Fetching *)

(** X8.  [_do_fetch] always returns a result for the URL it was given, and
    the result is consistent: it is a success exactly when the server
    answered 304, or answered below 400 with a document that parsed or
    yielded entries; a success carries no error; a failure carries an error
    and no entries or validators; a not-modified result is a success with no
    entries and the validators of the request. *)
Theorem do_fetch_result_consistent
        (u : string) (etag' last_modified' : option string) (o : HttpOutcome) :
  let r := _do_fetch u etag' last_modified' o in
  fr_url r = u /\
  (fr_success r = true <->
   exists response,
     o = Responded response /\
     (status response = 304 \/
      (status response < 400 /\
       (bozo (document response) = false \/
        doc_entries (document response) <> [])))) /\
  (fr_success r = true <-> fr_error r = None) /\
  (fr_success r = false ->
   fr_entries r = [] /\ fr_not_modified r = false /\
   fr_etag r = None /\ fr_last_modified r = None) /\
  (fr_not_modified r = true ->
   fr_success r = true /\ fr_entries r = [] /\
   fr_etag r = etag' /\ fr_last_modified r = last_modified').
Proof.
  cbn zeta. unfold _do_fetch.
  destruct o as [response| |msg|msg]; cbn [failure fr_url fr_success fr_error
    fr_entries fr_not_modified fr_etag fr_last_modified].
  2-4: (split; [reflexivity|]; split;
        [split; [discriminate|intros [resp [H _]]; discriminate]|];
        split; [split; discriminate|]; split; [auto|discriminate]).
  destruct (status response =? 304) eqn:H304; zbool.
  - cbn. split; [reflexivity|]. split.
    + split; [|reflexivity]. intros _. exists response. auto.
    + split; [tauto|]. split; [discriminate|auto].
  - destruct (status response >=? 400) eqn:H400; zbool.
    + cbn. split; [reflexivity|]. split.
      * split; [discriminate|]. intros [resp [H [Hs|[Hs _]]]];
          inversion H; subst; lia.
      * split; [split; discriminate|]. split; [auto|discriminate].
    + destruct (bozo (document response)) eqn:Hb;
        destruct (doc_entries (document response)) as [|d ds] eqn:He; cbn.
      * split; [reflexivity|]. split.
        -- split; [discriminate|].
           intros [resp [H [Hs|[_ [Hz|Hz]]]]]; inversion H; subst;
             [lia|congruence|congruence].
        -- split; [split; discriminate|]. split; [auto|discriminate].
      * split; [reflexivity|]. split.
        -- split; [|reflexivity]. intros _. exists response.
           split; [reflexivity|]. right. split; [lia|]. right.
           rewrite He. discriminate.
        -- split; [tauto|]. split; discriminate.
      * split; [reflexivity|]. split.
        -- split; [|reflexivity]. intros _. exists response.
           split; [reflexivity|]. right. split; [lia|]. now left.
        -- split; [tauto|]. split; discriminate.
      * split; [reflexivity|]. split.
        -- split; [|reflexivity]. intros _. exists response.
           split; [reflexivity|]. right. split; [lia|]. now left.
        -- split; [tauto|]. split; discriminate.
Qed.

(** ** The fetch pass *)

Section FetchPass.

Variable World : Type.
Variable E : Env World.

Import FeedService FeedRepository.

Lemma update_where_none {A} (p : A -> bool) f l :
  find p l = None -> update_where p f l = l.
Proof.
  unfold update_where. induction l as [|a l IH]; cbn; [reflexivity|].
  destruct (p a); [discriminate|]. intros H. now rewrite IH.
Qed.

Lemma mark_feed_error_rows now fid msg s :
  mark_feed_error now fid msg s
  = with_feeds s (update_where (fun f => feed_id_ f =? fid)
                    (fun f => touch_feed now (mark_error now msg f))
                    (feeds s)).
Proof.
  unfold mark_feed_error, get_feed_by_id.
  destruct (find _ (feeds s)) eqn:Hf; [reflexivity|].
  rewrite update_where_none by exact Hf. destruct s; reflexivity.
Qed.

(** What [fetch_and_store] does, by the result of the request. *)
Lemma fetch_and_store_run feed st :
  fetch_and_store E feed st =
  let '(o, w') := http_get E (url feed)
                    (conditional_headers (etag feed) (last_modified feed))
                    (world st) in
  let result := _do_fetch (url feed) (etag feed) (last_modified feed) o in
  let now := clock E w' in
  let put s := {| db := s; cache := cache st; world := w' |} in
  if negb (fr_success result) then
    ({| ffr_success := false; ffr_feed := Some feed; new_entries := [];
        ffr_message :=
          ("Fetch error: " ++ str_of_opt (fr_error result))%string |},
     put (mark_feed_error now (feed_id_ feed)
            (str_of_opt (fr_error result)) (db st)))
  else if fr_not_modified result then
    ({| ffr_success := true; ffr_feed := Some feed; new_entries := [];
        ffr_message := "Not modified" |},
     put (update_feed_metadata now (feed_id_ feed) None None None None
            (db st)))
  else
    let s1 := update_feed_metadata now (feed_id_ feed)
                (fr_feed_title result) (fr_feed_description result)
                (fr_etag result) (fr_last_modified result) (db st) in
    if negb (Nat.eqb (List.length (fr_entries result)) 0) then
      let created :=
        fst (create_entries_bulk now (feed_id_ feed) (fr_entries result) s1) in
      ({| ffr_success := true; ffr_feed := Some feed;
          new_entries := created;
          ffr_message :=
            (str_of_int (Z.of_nat (List.length created))
               ++ " new entries")%string |},
       put (snd (create_entries_bulk now (feed_id_ feed)
                   (fr_entries result) s1)))
    else
      ({| ffr_success := true; ffr_feed := Some feed; new_entries := [];
          ffr_message := "No new entries" |}, put s1).
Proof.
  unfold fetch_and_store, fetch_feed. run_monad.
  destruct (http_get E (url feed) _ (world st)) as [o w'].
  cbn [fst snd db world cache].
  destruct (negb (fr_success _)); [reflexivity|].
  destruct (fr_not_modified _); [reflexivity|].
  destruct (negb (Nat.eqb _ 0)); [|reflexivity].
  cbn [fst snd db world cache].
  destruct (create_entries_bulk _ _ _ _) as [created s2]. reflexivity.
Qed.

(** The rows a bulk insert adds keep natural keys and ids apart. *)
Lemma number_entries_keys now fid ds : forall n,
  map entry_key (number_entries now fid n ds)
  = map (fun d => (fid, data_guid d)) ds.
Proof.
  induction ds as [|d rest IH]; intros n; cbn; [reflexivity|].
  now rewrite IH.
Qed.

Lemma number_entries_ids now fid ds : forall n,
  Forall (fun i => n <= i) (map entry_id_ (number_entries now fid n ds)) /\
  NoDup (map entry_id_ (number_entries now fid n ds)).
Proof.
  induction ds as [|d rest IH]; intros n; cbn [number_entries map].
  - split; constructor.
  - destruct (IH (n + 1)) as [Hall Hnd]. cbn [new_entry entry_id_]. split.
    + constructor; [cbn beta; lia|]. eapply Forall_impl; [|exact Hall].
      intros a Ha. cbn beta in *. lia.
    + constructor; [|exact Hnd]. intros Hin.
      rewrite Forall_forall in Hall. apply Hall in Hin. cbn beta in Hin. lia.
Qed.

Lemma next_id_above ids i : In i ids -> i < next_id ids.
Proof.
  unfold next_id. induction ids as [|a l IH]; cbn [In fold_right]; [tauto|].
  intros [->|H]; [lia|]. apply IH in H. lia.
Qed.

Lemma NoDup_app_intro {A} (l1 l2 : list A) :
  NoDup l1 -> NoDup l2 -> (forall x, In x l1 -> ~ In x l2) -> NoDup (l1 ++ l2).
Proof.
  induction l1 as [|a l IH]; intros H1 H2 Hd; cbn; [exact H2|].
  inversion H1; subst. constructor.
  - rewrite in_app_iff. intros [H|H]; [contradiction|].
    apply (Hd a); [now left|exact H].
  - apply IH; auto. intros x Hx. apply Hd. now right.
Qed.

Lemma create_entries_bulk_unique now fid batch s :
  (NoDup (map entry_key (feed_entries s)) ->
   NoDup (map entry_key
            (feed_entries (snd (create_entries_bulk now fid batch s))))) /\
  (NoDup (map entry_id_ (feed_entries s)) ->
   NoDup (map entry_id_
            (feed_entries (snd (create_entries_bulk now fid batch s))))).
Proof.
  rewrite create_entries_bulk_spec. cbn [snd with_feed_entries feed_entries].
  rewrite !map_app. split; intros Hnd.
  - rewrite number_entries_keys. apply NoDup_app_intro; [exact Hnd| |].
    + pose proof (first_occurrences_NoDup batch (stored_guids s fid)) as Hk.
      clear -Hk. induction (first_occurrences (stored_guids s fid) batch)
        as [|d l IH]; cbn in *; [constructor|].
      inversion Hk; subst. constructor; [|now apply IH].
      rewrite in_map_iff. intros [x [Hx Hin]]. inversion Hx.
      apply H1. rewrite <- H0. now apply in_map.
    + intros [f g] Hold Hnew.
      apply in_map_iff in Hnew. destruct Hnew as [d [Hd Hin]].
      inversion Hd; subst f g.
      assert (Hg : In (data_guid d)
                      (map data_guid
                         (first_occurrences (stored_guids s fid) batch)))
        by now apply in_map.
      apply first_occurrences_guids in Hg. destruct Hg as [_ Hg]. apply Hg.
      apply in_map_iff in Hold. destruct Hold as [e [He Hine]].
      unfold entry_key in He. inversion He.
      unfold stored_guids. apply in_map_iff. exists e. split; [reflexivity|].
      apply filter_In. split; [exact Hine|]. rewrite H0. apply Z.eqb_refl.
  - destruct (number_entries_ids now fid
                (first_occurrences (stored_guids s fid) batch)
                (next_id (map entry_id_ (feed_entries s)))) as [Hall Hn].
    apply NoDup_app_intro; [exact Hnd|exact Hn|].
    intros i Hold Hnew. rewrite Forall_forall in Hall.
    apply Hall in Hnew. apply next_id_above in Hold. cbn beta in Hnew. lia.
Qed.

Lemma create_entries_bulk_first_occurrences_rows now fid batch s :
  feed_entries (snd (create_entries_bulk now fid batch s))
  = feed_entries s ++ fst (create_entries_bulk now fid batch s).
Proof. rewrite create_entries_bulk_spec. reflexivity. Qed.

Lemma fetch_and_store_entries feed st :
  let r := fetch_and_store E feed st in
  feed_entries (db (snd r)) = feed_entries (db st) ++ new_entries (fst r) /\
  ffr_feed (fst r) = Some feed /\
  (ffr_success (fst r) = false -> new_entries (fst r) = []) /\
  (NoDup (map entry_key (feed_entries (db st))) ->
   NoDup (map entry_key (feed_entries (db (snd r))))) /\
  (NoDup (map entry_id_ (feed_entries (db st))) ->
   NoDup (map entry_id_ (feed_entries (db (snd r))))).
Proof.
  cbn zeta. rewrite fetch_and_store_run.
  destruct (http_get E (url feed) _ (world st)) as [o w']. cbn zeta.
  destruct (negb (fr_success _)).
  { cbn [fst snd db new_entries ffr_feed ffr_success].
    rewrite mark_feed_error_rows. cbn [with_feeds feed_entries].
    rewrite app_nil_r. auto. }
  destruct (fr_not_modified _).
  { cbn [fst snd db new_entries ffr_feed ffr_success update_feed_metadata
         with_feeds feed_entries].
    rewrite app_nil_r. repeat split; auto; discriminate. }
  destruct (negb (Nat.eqb _ 0)).
  - cbn [fst snd db new_entries ffr_feed ffr_success].
    match goal with |- context [create_entries_bulk ?n ?f ?b ?s] =>
      pose proof (create_entries_bulk_unique n f b s) as [Hk Hi];
      pose proof (create_entries_bulk_first_occurrences_rows n f b s) as Hrows
    end.
    cbn [update_feed_metadata with_feeds feed_entries] in *.
    split; [exact Hrows|]. split; [reflexivity|].
    split; [discriminate|]. split; assumption.
  - cbn [fst snd db new_entries ffr_feed ffr_success update_feed_metadata
         with_feeds feed_entries].
    rewrite app_nil_r. repeat split; auto; discriminate.
Qed.

Lemma collect_new_entries_cons r rs :
  (ffr_success r = false -> new_entries r = []) ->
  Dispatcher.collect_new_entries (r :: rs)
  = new_entries r ++ Dispatcher.collect_new_entries rs.
Proof.
  intros H. unfold Dispatcher.collect_new_entries. cbn [flat_map].
  destruct (ffr_success r); [reflexivity|]. now rewrite H.
Qed.

Lemma fetch_each_entries fs : forall st,
  let r := fetch_each E fs st in
  map ffr_feed (fst r) = map Some fs /\
  feed_entries (db (snd r))
  = feed_entries (db st) ++ Dispatcher.collect_new_entries (fst r) /\
  (NoDup (map entry_key (feed_entries (db st))) ->
   NoDup (map entry_key (feed_entries (db (snd r))))) /\
  (NoDup (map entry_id_ (feed_entries (db st))) ->
   NoDup (map entry_id_ (feed_entries (db (snd r))))).
Proof.
  induction fs as [|feed rest IH]; intros st; cbn zeta.
  - cbn. rewrite app_nil_r. auto.
  - cbn [fetch_each]. rewrite bind_run.
    destruct (fetch_and_store_entries feed st) as (H1 & H2 & H3 & H4 & H5).
    destruct (fetch_and_store E feed st) as [res st1].
    cbn [fst snd] in *. rewrite bind_run.
    destruct (IH st1) as (I1 & I2 & I3 & I4).
    destruct (fetch_each E rest st1) as [results st2].
    cbn [fst snd ret map] in *.
    split; [now rewrite H2, I1|]. split; [|split; auto].
    rewrite collect_new_entries_cons by exact H3.
    now rewrite I2, H1, app_assoc.
Qed.

End FetchPass.

(** X9.  A failed fetch is recorded on the feed and nowhere else: the rows
    of that feed get one more error, the error text and the fetch time, and
    are switched off once the count has reached 10; validators, entries,
    subscriptions and receipts stay as they were, and the result reports a
    failure without new entries. *)
Theorem failed_fetch_recorded_on_feed
        (World : Type) (E : Env World) (feed : Feed) (st : Sys World)
        (o : HttpOutcome) (w' : World)
        (Hget : http_get E (url feed)
                  (conditional_headers (etag feed) (last_modified feed))
                  (world st) = (o, w'))
        (Hfail : fr_success (_do_fetch (url feed) (etag feed)
                               (last_modified feed) o) = false) :
  let r := FeedService.fetch_and_store E feed st in
  let msg := str_of_opt (fr_error (_do_fetch (url feed) (etag feed)
                                     (last_modified feed) o)) in
  FeedService.ffr_success (fst r) = false /\
  FeedService.new_entries (fst r) = [] /\
  feeds (db (snd r))
  = update_where (fun f => feed_id_ f =? feed_id_ feed)
      (fun f => FeedRepository.touch_feed (clock E w')
                  (mark_error (clock E w') msg f))
      (feeds (db st)) /\
  map error_count (feeds (db (snd r)))
  = map (fun f => if feed_id_ f =? feed_id_ feed
                  then error_count f + 1 else error_count f)
        (feeds (db st)) /\
  map etag (feeds (db (snd r))) = map etag (feeds (db st)) /\
  map last_modified (feeds (db (snd r)))
  = map last_modified (feeds (db st)) /\
  (forall f, In f (feeds (db (snd r))) ->
             feed_id_ f = feed_id_ feed -> 10 <= error_count f ->
             feed_is_active f = false) /\
  feed_entries (db (snd r)) = feed_entries (db st) /\
  subscriptions (db (snd r)) = subscriptions (db st) /\
  sent_entries (db (snd r)) = sent_entries (db st).
Proof.
  cbn zeta. rewrite fetch_and_store_run, Hget. cbn zeta. rewrite Hfail.
  cbn [negb fst snd db FeedService.ffr_success FeedService.new_entries].
  rewrite mark_feed_error_rows.
  cbn [FeedRepository.with_feeds feeds feed_entries subscriptions
       sent_entries].
  split; [reflexivity|]. split; [reflexivity|]. split; [reflexivity|].
  split.
  { unfold update_where. rewrite map_map. apply map_ext. intros f.
    destruct (feed_id_ f =? feed_id_ feed); reflexivity. }
  split; [apply update_where_map; reflexivity|].
  split; [apply update_where_map; reflexivity|].
  split; [|auto].
  intros f Hin Hid Hten. unfold update_where in Hin.
  apply in_map_iff in Hin. destruct Hin as [f0 [Hf Hin]].
  destruct (feed_id_ f0 =? feed_id_ feed) eqn:Hm.
  - subst f. cbn [FeedRepository.touch_feed mark_error feed_is_active
                  error_count] in *.
    destruct (error_count f0 + 1 >=? 10) eqn:Hc; [reflexivity|].
    zbool. lia.
  - subst f0. zbool. contradiction.
Qed.


(** X11.  The uniqueness of [(feed_id, guid)] and of entry ids is kept by
    [create_entries_bulk] and by a whole fetch pass: starting from a table
    without duplicates, neither ever stores a second row with the same
    natural key or the same id, whatever the servers send. *)
Theorem entries_stay_unique
        (World : Type) (E : Env World) (st : Sys World)
        (Hkeys : NoDup (map entry_key (feed_entries (db st))))
        (Hids : NoDup (map entry_id_ (feed_entries (db st)))) :
  (forall now feed_id batch,
      NoDup (map entry_key
               (feed_entries (snd (FeedRepository.create_entries_bulk
                                     now feed_id batch (db st))))) /\
      NoDup (map entry_id_
               (feed_entries (snd (FeedRepository.create_entries_bulk
                                     now feed_id batch (db st)))))) /\
  NoDup (map entry_key
           (feed_entries (db (snd (FeedService.fetch_all_feeds E st))))) /\
  NoDup (map entry_id_
           (feed_entries (db (snd (FeedService.fetch_all_feeds E st))))).
Proof.
  split.
  - intros now fid batch.
    destruct (create_entries_bulk_unique now fid batch (db st)) as [Hk Hi].
    auto.
  - unfold FeedService.fetch_all_feeds. rewrite bind_run. unfold query.
    cbn [fst snd].
    destruct (fetch_each_entries E
                (FeedRepository.get_all_active_feeds (db st)) st)
      as (_ & _ & Hk & Hi).
    auto.
Qed.

(** ** Subscribing and unsubscribing *)

Section SubscriptionFacts.

Variable World : Type.
Variable E : Env World.

Import FeedRepository SubscriptionRepository FeedService SubscriptionService.

Lemma find_update_where {A} (p q : A -> bool) (g : A -> A) l :
  (forall x, p (g x) = p x) ->
  find p (update_where q g l)
  = option_map (fun x => if q x then g x else x) (find p l).
Proof.
  intros Hp. unfold update_where.
  induction l as [|a l IH]; cbn; [reflexivity|].
  assert (Ha : p (if q a then g a else a) = p a)
    by (destruct (q a); [apply Hp|reflexivity]).
  rewrite Ha. destruct (p a); [reflexivity|exact IH].
Qed.

Lemma find_app_none {A} (p : A -> bool) l1 l2 :
  find p l1 = None -> find p (l1 ++ l2) = find p l2.
Proof.
  induction l1 as [|a l IH]; cbn; [reflexivity|].
  destruct (p a); [discriminate|exact IH].
Qed.

Lemma create_entries_bulk_feeds now fid batch s :
  feeds (snd (create_entries_bulk now fid batch s)) = feeds s.
Proof. rewrite create_entries_bulk_spec. reflexivity. Qed.

(** What [add_feed] leaves behind, by its outcome. *)
Lemma add_feed_outcome u st :
  let r := add_feed E u st in
  subscriptions (db (snd r)) = subscriptions (db st) /\
  sent_entries (db (snd r)) = sent_entries (db st) /\
  (add_success (fst r) = false ->
   db (snd r) = db st /\ add_feed_ (fst r) = None) /\
  (add_success (fst r) = true ->
   exists f f',
     add_feed_ (fst r) = Some f /\
     get_feed_by_url (db (snd r)) u = Some f' /\
     feed_id_ f' = feed_id_ f).
Proof.
  cbn zeta. unfold add_feed, fetch_feed. run_monad.
  destruct (get_feed_by_url (db st) u) as [f|] eqn:Hu.
  - cbn. repeat split; try discriminate. intros _. exists f, f. auto.
  - destruct (http_get E u (conditional_headers None None) (world st))
      as [o w'].
    cbn [fst snd db world cache].
    destruct (negb (fr_success (_do_fetch u None None o)));
      [cbn; repeat split; auto; discriminate|].
    destruct (Nat.eqb (List.length (fr_entries (_do_fetch u None None o))) 0);
      [cbn; repeat split; auto; discriminate|].
    unfold create_feed. cbn [fst snd db world cache].
    match goal with |- context [create_entries_bulk ?n ?f ?b ?s] =>
      pose proof (create_entries_bulk_ledger n f b s) as [Hs Hl];
      pose proof (create_entries_bulk_feeds n f b s) as Hfeeds;
      destruct (create_entries_bulk n f b s) as [created s2]
    end.
    cbn [fst snd db add_success add_feed_] in *.
    split; [exact Hs|]. split; [exact Hl|]. split; [discriminate|].
    intros _. eexists. eexists. split; [reflexivity|].
    unfold get_feed_by_url. rewrite Hfeeds.
    unfold update_feed_metadata. cbn [with_feeds feeds].
    rewrite find_update_where by reflexivity.
    rewrite find_app_none by exact Hu.
    cbn [find url]. rewrite String.eqb_refl.
    cbn [option_map feed_id_]. rewrite Z.eqb_refl.
    split; reflexivity.
Qed.

(** What [get_or_create_subscription] leaves behind. *)
Lemma get_or_create_subscription_found now p user_id c fid guild_id s :
  let r := get_or_create_subscription now p user_id c fid guild_id s in
  get_subscription (snd r) p c fid = Some (fst (fst r)) /\
  sub_is_active (fst (fst r)) = true /\
  feeds (snd r) = feeds s /\
  feed_entries (snd r) = feed_entries s /\
  sent_entries (snd r) = sent_entries s.
Proof.
  cbn zeta. unfold get_or_create_subscription.
  destruct (get_subscription s p c fid) as [existing|] eqn:Hg.
  - destruct (sub_is_active existing) eqn:Ha; cbn [negb fst snd].
    + auto.
    + unfold get_subscription in *. cbn [with_subscriptions subscriptions
        feeds feed_entries sent_entries].
      rewrite find_update_where by reflexivity. rewrite Hg.
      cbn [option_map]. rewrite Z.eqb_refl. auto.
  - unfold create_subscription. cbn [fst snd].
    unfold get_subscription in *.
    cbn [with_subscriptions subscriptions feeds feed_entries sent_entries].
    rewrite find_app_none by exact Hg. cbn [find].
    unfold binding_matches at 1.
    cbn [platform platform_channel_id sub_feed_id sub_is_active].
    rewrite !String.eqb_refl, Z.eqb_refl. cbn. auto.
Qed.

Lemma subscribe_feed_outcome p user_id c u guild_id st :
  let r := subscribe_feed E p user_id c u guild_id st in
  (sr_success (fst r) = false ->
   db (snd r) = db st /\ sr_subscription (fst r) = None) /\
  (sr_success (fst r) = true ->
   exists f f' sub,
     sr_feed (fst r) = Some f /\ sr_subscription (fst r) = Some sub /\
     get_feed_by_url (db (snd r)) u = Some f' /\
     feed_id_ f' = feed_id_ f /\
     get_subscription (db (snd r)) p c (feed_id_ f) = Some sub /\
     sub_is_active sub = true).
Proof.
  cbn zeta. unfold subscribe_feed. rewrite bind_run.
  destruct (add_feed_outcome u st) as (_ & _ & Hfail & Hok).
  destruct (add_feed E u st) as [res st1]. cbn [fst snd] in *.
  destruct (add_success res) eqn:Hs.
  - destruct (Hok eq_refl) as (f & f' & Hf & Hu & Hid). rewrite Hf.
    run_monad.
    pose proof (get_or_create_subscription_found (clock E (world st1))
                  p user_id c (feed_id_ f) guild_id (db st1))
      as (Hg & Ha & Hfeeds & _).
    destruct (get_or_create_subscription (clock E (world st1)) p user_id c
                (feed_id_ f) guild_id (db st1)) as [[sub created] s2].
    cbn [fst snd db] in *.
    assert (Hu2 : get_feed_by_url s2 u = Some f')
      by (unfold get_feed_by_url in *; now rewrite Hfeeds).
    destruct created; cbn [negb fst snd db sr_success sr_feed
                                sr_subscription];
      (split; [discriminate|]; intros _; exists f, f', sub;
       repeat split; auto).
  - destruct (Hfail eq_refl) as [Hdb Hnone].
    cbn. split; [auto|discriminate].
Qed.

End SubscriptionFacts.

(** X12.  A [subscribe] that does not succeed creates nothing: whatever the
    reason (quota reached, feed unreachable, feed without entries), the
    database is left exactly as it was and no subscription is returned. *)
Theorem subscribe_failure_changes_nothing
        (World : Type) (E : Env World) (st : Sys World)
        (p user_id c feed_url : string) (guild_id : option string)
        (Hfailed : SubscriptionService.sr_success
                     (fst (SubscriptionService.subscribe E p user_id c
                             feed_url guild_id st)) = false) :
  db (snd (SubscriptionService.subscribe E p user_id c feed_url guild_id st))
  = db st /\
  SubscriptionService.sr_subscription
    (fst (SubscriptionService.subscribe E p user_id c feed_url guild_id st))
  = None.
Proof.
  revert Hfailed. unfold SubscriptionService.subscribe.
  pose proof (subscribe_feed_outcome E p user_id c feed_url guild_id st)
    as [Hf _].
  destruct (max_feeds_per_channel E >? 0); [|exact Hf].
  run_monad.
  destruct (SubscriptionRepository.count_channel_subscriptions (db st) p c
            >=? max_feeds_per_channel E); [|exact Hf].
  intros _. split; reflexivity.
Qed.

(** X13.  Subscribing is idempotent: after a successful [subscribe], the
    same channel subscribing to the same URL again (the quota permitting)
    is answered with success, [is_new = false] and the very same
    subscription, and the second call changes nothing: no second row, no
    request to the feed. *)
Theorem subscribe_twice_keeps_one_row
        (World : Type) (E : Env World) (st : Sys World)
        (p user_id user_id' c feed_url : string)
        (guild_id guild_id' : option string)
        (Hfirst : SubscriptionService.sr_success
                    (fst (SubscriptionService.subscribe E p user_id c
                            feed_url guild_id st)) = true)
        (Hquota : max_feeds_per_channel E <= 0 \/
                  SubscriptionRepository.count_channel_subscriptions
                    (db (snd (SubscriptionService.subscribe E p user_id c
                                feed_url guild_id st))) p c
                  < max_feeds_per_channel E) :
  let first := SubscriptionService.subscribe E p user_id c feed_url
                 guild_id st in
  let second := SubscriptionService.subscribe E p user_id' c feed_url
                  guild_id' (snd first) in
  SubscriptionService.sr_success (fst second) = true /\
  SubscriptionService.is_new (fst second) = false /\
  SubscriptionService.sr_message (fst second)
  = "Already subscribed to this feed" /\
  SubscriptionService.sr_subscription (fst second)
  = SubscriptionService.sr_subscription (fst first) /\
  snd second = snd first.
Proof.
  cbn zeta.
  assert (Hfeed :
    SubscriptionService.subscribe E p user_id c feed_url guild_id st
    = SubscriptionService.subscribe_feed E p user_id c feed_url guild_id st).
  { revert Hfirst. unfold SubscriptionService.subscribe.
    destruct (max_feeds_per_channel E >? 0); [|reflexivity].
    run_monad.
    destruct (SubscriptionRepository.count_channel_subscriptions (db st) p c
              >=? max_feeds_per_channel E); [discriminate|reflexivity]. }
  rewrite Hfeed in *.
  destruct (subscribe_feed_outcome E p user_id c feed_url guild_id st)
    as [_ Hok].
  destruct (Hok Hfirst) as (f & f' & sub & Hf & Hs & Hu & Hid & Hg & Ha).
  destruct (SubscriptionService.subscribe_feed E p user_id c feed_url
              guild_id st) as [r1 st1].
  cbn [fst snd] in *.
  assert (Hsecond :
    SubscriptionService.subscribe_feed E p user_id' c feed_url guild_id' st1
    = ({| SubscriptionService.sr_success := true;
          SubscriptionService.sr_subscription := Some sub;
          SubscriptionService.sr_feed := Some f';
          SubscriptionService.sr_message := "Already subscribed to this feed";
          SubscriptionService.is_new := false |}, st1)).
  { unfold SubscriptionService.subscribe_feed, FeedService.add_feed.
    run_monad. rewrite Hu. cbn.
    unfold SubscriptionRepository.get_or_create_subscription.
    rewrite Hid, Hg, Ha. cbn. now rewrite sys_eta. }
  assert (Hsub :
    SubscriptionService.subscribe E p user_id' c feed_url guild_id' st1
    = SubscriptionService.subscribe_feed E p user_id' c feed_url guild_id'
        st1).
  { unfold SubscriptionService.subscribe.
    destruct (max_feeds_per_channel E >? 0) eqn:H0; [|reflexivity].
    run_monad.
    destruct (SubscriptionRepository.count_channel_subscriptions (db st1) p c
              >=? max_feeds_per_channel E) eqn:H1; [|reflexivity].
    zbool. exfalso. lia. }
  rewrite Hsub, Hsecond. cbn. rewrite Hs. repeat split.
Qed.

Section Unsubscribing.

Variable World : Type.

Import FeedRepository SubscriptionRepository SubscriptionService.

Lemma filter_none_matching {A} (p : A -> bool) l :
  find p l = None -> filter (fun x => negb (p x)) l = l.
Proof.
  induction l as [|a l IH]; cbn; [reflexivity|].
  destruct (p a); [discriminate|]. cbn. intros H. now rewrite IH.
Qed.

Lemma find_filter_negb {A} (p : A -> bool) l :
  find p (filter (fun x => negb (p x)) l) = None.
Proof.
  induction l as [|a l IH]; cbn; [reflexivity|].
  destruct (p a) eqn:Hp; cbn; [exact IH|]. now rewrite Hp.
Qed.

Lemma filter_length_lt {A} (p : A -> bool) l x :
  find p l = Some x ->
  Nat.ltb (List.length (filter (fun y => negb (p y)) l)) (List.length l) = true.
Proof.
  intros H. apply Nat.ltb_lt.
  induction l as [|a l IH]; cbn in *; [discriminate|].
  pose proof (filter_length_le (fun y => negb (p y)) l).
  destruct (p a); cbn; [lia|]. apply IH in H. lia.
Qed.

Lemma unsubscribe_run p c u (st : Sys World) :
  unsubscribe p c u st =
  match get_feed_by_url (db st) u with
  | None => ({| ur_success := false; ur_message := "Feed not found" |}, st)
  | Some f =>
      match get_subscription (db st) p c (feed_id_ f) with
      | None =>
          ({| ur_success := false; ur_message := "Subscription not found" |},
           st)
      | Some _ =>
          ({| ur_success := true;
              ur_message :=
                ("Unsubscribed from "
                   ++ (if truthy (feed_title f) then or_empty (feed_title f)
                       else u))%string |},
           {| db := with_subscriptions (db st)
                      (filter (fun x => negb (binding_matches p c
                                                (feed_id_ f) x))
                              (subscriptions (db st)));
              cache := cache st; world := world st |})
      end
  end.
Proof.
  unfold unsubscribe. run_monad.
  destruct (get_feed_by_url (db st) u) as [f|]; [|reflexivity].
  unfold delete_subscription, get_subscription. cbn [fst snd].
  destruct (find (binding_matches p c (feed_id_ f)) (subscriptions (db st)))
    as [x|] eqn:Hf.
  - rewrite (filter_length_lt _ _ Hf). reflexivity.
  - rewrite filter_none_matching by exact Hf.
    rewrite Nat.ltb_irrefl. cbn.
    destruct st as [[fs es ss rs] ca w]. reflexivity.
Qed.

End Unsubscribing.

(** X14.  [unsubscribe] succeeds exactly when the URL is a stored feed and
    the channel has a subscription to it.  On success every row binding the
    channel to that feed is deleted and nothing else changes; otherwise it
    answers "Feed not found" or "Subscription not found" and leaves the
    state as it was.  Either way the channel has no subscription to the
    feed afterwards. *)
Theorem unsubscribe_outcome
        (World : Type) (st : Sys World)
        (p c feed_url : string) :
  let r := SubscriptionService.unsubscribe p c feed_url st in
  (SubscriptionService.ur_success (fst r) = true <->
   exists f, FeedRepository.get_feed_by_url (db st) feed_url = Some f /\
             SubscriptionRepository.get_subscription (db st) p c (feed_id_ f)
             <> None) /\
  (SubscriptionService.ur_success (fst r) = false -> snd r = st) /\
  (FeedRepository.get_feed_by_url (db st) feed_url = None ->
   SubscriptionService.ur_message (fst r) = "Feed not found") /\
  (forall f,
      FeedRepository.get_feed_by_url (db st) feed_url = Some f ->
      (SubscriptionRepository.get_subscription (db st) p c (feed_id_ f) = None
       -> SubscriptionService.ur_message (fst r) = "Subscription not found")
      /\
      SubscriptionRepository.get_subscription (db (snd r)) p c (feed_id_ f)
      = None /\
      subscriptions (db (snd r))
      = filter (fun x => negb (SubscriptionRepository.binding_matches p c
                                 (feed_id_ f) x))
               (subscriptions (db st))) /\
  feeds (db (snd r)) = feeds (db st) /\
  feed_entries (db (snd r)) = feed_entries (db st) /\
  sent_entries (db (snd r)) = sent_entries (db st).
Proof.
  cbn zeta. rewrite unsubscribe_run.
  destruct (FeedRepository.get_feed_by_url (db st) feed_url) as [f|] eqn:Hu.
  - destruct (SubscriptionRepository.get_subscription (db st) p c (feed_id_ f))
      as [x|] eqn:Hg; cbn [fst snd db SubscriptionService.ur_success
                            SubscriptionService.ur_message].
    + split; [split; [intros _; exists f; split; [reflexivity|]|reflexivity]|].
      { rewrite Hg. discriminate. }
      split; [discriminate|]. split; [discriminate|]. split; [|auto].
      intros f0 Hf0. inversion Hf0; subst f0.
      split; [rewrite Hg; discriminate|]. split; [|reflexivity].
      unfold SubscriptionRepository.get_subscription.
      cbn [SubscriptionRepository.with_subscriptions subscriptions].
      apply find_filter_negb.
    + split.
      { split; [discriminate|]. intros [f0 [Hf0 Hn]].
        inversion Hf0; subst f0. congruence. }
      split; [reflexivity|]. split; [discriminate|]. split; [|auto].
      intros f0 Hf0. inversion Hf0; subst f0.
      split; [reflexivity|]. split; [exact Hg|].
      unfold SubscriptionRepository.get_subscription in Hg.
      now rewrite filter_none_matching.
  - cbn [fst snd db SubscriptionService.ur_success
         SubscriptionService.ur_message].
    split.
    { split; [discriminate|]. intros [f0 [Hf0 _]]. discriminate. }
    split; [reflexivity|]. split; [reflexivity|]. split; [|auto].
    intros f0 Hf0. discriminate.
Qed.

Section SettingsAndDeactivation.

Variable World : Type.
Variable E : Env World.

Import FeedRepository SubscriptionRepository SubscriptionService.

Lemma find_some_holds {A} (p : A -> bool) l x :
  find p l = Some x -> p x = true.
Proof. intros H. now apply find_some in H. Qed.

Lemma existsb_find_some {A} (p : A -> bool) l x :
  find p l = Some x -> existsb p l = true.
Proof.
  intros H. apply existsb_exists. exists x. now apply find_some in H.
Qed.

Lemma update_each_all feed_url tr tl subs :
  truthy feed_url = false ->
  is_some tr || is_some tl = true ->
  forall st : Sys World,
    let r := update_each E feed_url tr tl subs st in
    fst r = Some tt /\
    subscriptions (db (snd r))
    = map (fun x =>
             if existsb (fun y => sub_id_ y =? sub_id_ x) subs
             then apply_settings (clock E (world st)) tr tl None None x
             else x)
          (subscriptions (db st)) /\
    feeds (db (snd r)) = feeds (db st) /\
    feed_entries (db (snd r)) = feed_entries (db st) /\
    sent_entries (db (snd r)) = sent_entries (db st) /\
    cache (snd r) = cache st /\
    world (snd r) = world st.
Proof.
  intros Hf Hset. induction subs as [|h rest IH]; intros st; cbn zeta.
  - cbn. rewrite map_id. repeat split.
  - cbn [update_each]. rewrite Hf. unfold FeedService.now_. run_monad.
    unfold update_subscription_settings.
    rewrite !orb_false_r. rewrite Hset.
    match goal with |- context [update_each E feed_url tr tl rest ?s] =>
      destruct (IH s) as (H1 & H2 & H3 & H4 & H5 & H6 & H7)
    end.
    cbn [db world cache with_subscriptions subscriptions feeds feed_entries
         sent_entries] in *.
    rewrite H1, H2, H3, H4, H5, H6, H7.
    repeat split. unfold update_where. rewrite map_map.
    apply map_ext. intros x. cbn [existsb].
    rewrite (Z.eqb_sym (sub_id_ h) (sub_id_ x)).
    destruct (sub_id_ x =? sub_id_ h); cbn [orb sub_id_ apply_settings].
    + destruct (existsb _ rest); [|reflexivity].
      unfold apply_settings. cbn. destruct tr, tl; reflexivity.
    + reflexivity.
Qed.

Lemma existsb_id_filter (q : Subscription -> bool) l x :
  NoDup (map sub_id_ l) -> In x l ->
  existsb (fun y => sub_id_ y =? sub_id_ x) (filter q l) = q x.
Proof.
  intros Hnd Hin. destruct (q x) eqn:Hq.
  - apply existsb_exists. exists x. split; [|apply Z.eqb_refl].
    apply filter_In. auto.
  - apply not_true_is_false. intros H. apply existsb_exists in H.
    destruct H as [y [Hy Hid]]. apply filter_In in Hy. destruct Hy as [Hy Hqy].
    apply Z.eqb_eq in Hid.
    assert (y = x); [|congruence].
    clear Hq Hqy. induction l as [|a l IH]; [contradiction|].
    cbn [map] in Hnd. inversion Hnd as [|? ? Hna Hnd']; subst.
    destruct Hy as [->|Hy], Hin as [->|Hin]; auto.
    + exfalso. apply Hna. rewrite Hid. now apply in_map.
    + exfalso. apply Hna. rewrite <- Hid. now apply in_map.
Qed.

End SettingsAndDeactivation.

(** X15.  [update_settings] called without a feed URL ([None] or the empty
    string) applies the given settings to every active subscription of the
    channel and to no other row: with subscription ids unique, the table
    afterwards is the old one with [translate] / [target_language]
    overwritten (and [updated_at] stamped) exactly on the rows of that
    channel; feeds, entries, receipts and the cache are untouched. *)
Theorem update_settings_reaches_whole_channel
        (World : Type) (E : Env World) (st : Sys World) (p c : string)
        (feed_url : option string) (translate' : option bool)
        (target_language' : option string)
        (Hall : truthy feed_url = false)
        (Hset : SubscriptionRepository.is_some translate'
                || SubscriptionRepository.is_some target_language' = true)
        (Hids : NoDup (map sub_id_ (subscriptions (db st)))) :
  let r := SubscriptionService.update_settings E p c feed_url translate'
             target_language' st in
  subscriptions (db (snd r))
  = map (fun x =>
           if SubscriptionRepository.channel_matches p c x
           then SubscriptionRepository.apply_settings
                  (clock E (world st)) translate' target_language'
                  None None x
           else x)
        (subscriptions (db st)) /\
  feeds (db (snd r)) = feeds (db st) /\
  feed_entries (db (snd r)) = feed_entries (db st) /\
  sent_entries (db (snd r)) = sent_entries (db st) /\
  cache (snd r) = cache st.
Proof.
  cbn zeta. unfold SubscriptionService.update_settings. run_monad.
  pose proof (update_each_all E feed_url translate' target_language'
                (SubscriptionRepository.get_channel_subscriptions (db st) p c)
                Hall Hset st) as H.
  cbn zeta in H. destruct H as (H1 & H2 & H3 & H4 & H5 & H6 & H7).
  assert (Hmap :
    map (fun x =>
           if existsb (fun y => sub_id_ y =? sub_id_ x)
                (SubscriptionRepository.get_channel_subscriptions (db st) p c)
           then SubscriptionRepository.apply_settings (clock E (world st))
                  translate' target_language' None None x
           else x) (subscriptions (db st))
    = map (fun x =>
           if SubscriptionRepository.channel_matches p c x
           then SubscriptionRepository.apply_settings (clock E (world st))
                  translate' target_language' None None x
           else x) (subscriptions (db st))).
  { apply map_ext_in. intros x Hx.
    unfold SubscriptionRepository.get_channel_subscriptions.
    now rewrite existsb_id_filter. }
  destruct (SubscriptionRepository.get_channel_subscriptions (db st) p c)
    as [|h rest] eqn:Hsubs.
  - cbn [fst snd]. rewrite <- Hmap. cbn [existsb]. rewrite map_id.
    repeat split.
  - rewrite <- Hmap.
    destruct (SubscriptionService.update_each E feed_url translate'
                target_language' (h :: rest) st) as [[[]|] st'];
      cbn [fst snd] in *; try discriminate.
    repeat split; assumption.
Qed.

(** X16.  A subscription switched off with [deactivate_subscription] is not
    lost: the call reports a hit, the row stays in the table as inactive,
    and a later [get_or_create_subscription] for the same channel and feed
    switches that very row back on (same id, same settings) instead of
    inserting a second one. *)
Theorem deactivated_subscription_is_reused
        (now now' : Z) (p user_id c : string) (feed_id : Z)
        (guild_id : option string) (s : Store) (sub : Subscription)
        (Hsub : SubscriptionRepository.get_subscription s p c feed_id
                = Some sub) :
  let off := SubscriptionRepository.deactivate_subscription now p c feed_id
               s in
  let back := SubscriptionRepository.get_or_create_subscription
                now' p user_id c feed_id guild_id (snd off) in
  fst off = true /\
  SubscriptionRepository.get_subscription (snd off) p c feed_id
  = Some (SubscriptionRepository.deactivate now sub) /\
  fst back = (SubscriptionRepository.reactivate now'
                (SubscriptionRepository.deactivate now sub), false) /\
  SubscriptionRepository.get_subscription (snd back) p c feed_id
  = Some (fst (fst back)) /\
  sub_id_ (fst (fst back)) = sub_id_ sub /\
  sub_is_active (fst (fst back)) = true /\
  translate (fst (fst back)) = translate sub /\
  target_language (fst (fst back)) = target_language sub /\
  List.length (subscriptions (snd back)) = List.length (subscriptions s).
Proof.
  cbn zeta.
  assert (Hoff :
    SubscriptionRepository.get_subscription
      (snd (SubscriptionRepository.deactivate_subscription now p c feed_id s))
      p c feed_id
    = Some (SubscriptionRepository.deactivate now sub)).
  { unfold SubscriptionRepository.deactivate_subscription,
      SubscriptionRepository.get_subscription in *.
    cbn [snd SubscriptionRepository.with_subscriptions subscriptions].
    rewrite find_update_where by reflexivity. rewrite Hsub.
    cbn [option_map]. now rewrite (find_some_holds _ _ Hsub). }
  pose proof (get_or_create_subscription_found now' p user_id c feed_id
                guild_id
                (snd (SubscriptionRepository.deactivate_subscription
                        now p c feed_id s))) as Hback.
  cbn zeta in Hback. destruct Hback as (Hg & Ha & _).
  assert (Hfst :
    fst (SubscriptionRepository.get_or_create_subscription now' p user_id c
           feed_id guild_id
           (snd (SubscriptionRepository.deactivate_subscription
                   now p c feed_id s)))
    = (SubscriptionRepository.reactivate now'
         (SubscriptionRepository.deactivate now sub), false)).
  { unfold SubscriptionRepository.get_or_create_subscription.
    rewrite Hoff. reflexivity. }
  split.
  { unfold SubscriptionRepository.deactivate_subscription. cbn [fst].
    apply (existsb_find_some _ _ Hsub). }
  split; [exact Hoff|]. split; [exact Hfst|]. split; [exact Hg|].
  rewrite Hfst. cbn [fst]. repeat split.
  unfold SubscriptionRepository.get_or_create_subscription.
  rewrite Hoff. cbn [SubscriptionRepository.deactivate sub_is_active negb snd].
  unfold SubscriptionRepository.deactivate_subscription.
  cbn [snd SubscriptionRepository.with_subscriptions subscriptions].
  unfold update_where. now rewrite !length_map.
Qed.

(** ** Uniqueness of receipts *)

Lemma insert_by_published_perm e l :
  Permutation (insert_by_published e l) (e :: l).
Proof.
  induction l as [|h t IH]; cbn [insert_by_published]; [reflexivity|].
  destruct (published_before e h); [reflexivity|].
  rewrite IH. apply perm_swap.
Qed.

Lemma order_by_published_desc_perm l :
  Permutation (order_by_published_desc l) l.
Proof.
  induction l as [|h t IH]; cbn; [reflexivity|].
  fold (order_by_published_desc t).
  rewrite insert_by_published_perm. now constructor.
Qed.

Lemma NoDup_map_filter {A B} (f : A -> B) (p : A -> bool) l :
  NoDup (map f l) -> NoDup (map f (filter p l)).
Proof.
  induction l as [|a l IH]; cbn; [auto|].
  intros H. inversion H as [|? ? Hn Hd]; subst.
  destruct (p a); [|auto]. cbn. constructor; [|auto].
  intros Hin. apply Hn. apply in_map_iff in Hin.
  destruct Hin as [x [Hx Hin]]. apply filter_In in Hin.
  apply in_map_iff. exists x. tauto.
Qed.

Lemma NoDup_map_firstn {A B} (f : A -> B) n : forall l,
  NoDup (map f l) -> NoDup (map f (firstn n l)).
Proof.
  induction n as [|n IH]; intros [|a l] H; cbn; try constructor.
  - inversion H as [|? ? Hn Hd]; subst. intros Hin. apply Hn.
    apply in_map_iff in Hin. destruct Hin as [x [Hx Hin]].
    apply In_firstn in Hin. apply in_map_iff. eauto.
  - inversion H; subst. auto.
Qed.

Lemma unsent_query_ids_unique s sid K :
  NoDup (map entry_id_ (feed_entries s)) ->
  NoDup (map entry_id_
           (SubscriptionRepository.get_unsent_entries_for_subscription
              s sid K)).
Proof.
  intros H. unfold SubscriptionRepository.get_unsent_entries_for_subscription.
  destruct (SubscriptionRepository.get_subscription_by_id s sid);
    [|constructor].
  unfold limit_rows.
  assert (Ho : forall l, NoDup (map entry_id_ l) ->
                         NoDup (map entry_id_ (order_by_published_desc l))).
  { intros l Hl. eapply Permutation_NoDup; [|exact Hl].
    apply Permutation_map. symmetry. apply order_by_published_desc_perm. }
  destruct (K <? 0).
  - apply Ho. now apply NoDup_map_filter.
  - apply NoDup_map_firstn, Ho. now apply NoDup_map_filter.
Qed.

Lemma NoDup_pair_left {A B} (a : A) (l : list B) :
  NoDup l -> NoDup (map (fun b => (a, b)) l).
Proof.
  induction 1 as [|b l Hn Hd IH]; cbn; constructor; [|auto].
  intros Hin. apply in_map_iff in Hin. destruct Hin as [x [Hx Hin]].
  inversion Hx; subst. contradiction.
Qed.

Section ReceiptsUnique.

Variable World : Type.
Variable E : Env World.

Import Dispatcher SubscriptionRepository.

Lemma ledger_grows_ids s s' events :
  ledger_grows s s' events ->
  map entry_id_ (feed_entries s') = map entry_id_ (feed_entries s).
Proof.
  intros (new & _ & _ & _ & _ & Hk).
  assert (H : forall l, map entry_id_ l
                        = map (fun k => fst (fst k)) (map skeleton l))
    by (intros l; rewrite map_map; reflexivity).
  now rewrite !H, Hk.
Qed.

Lemma turn_events sub (st : Sys World) :
  let r := _dispatch_to_subscription E sub st in
  map (fun ev => fst ev) (snd (fst r))
  = match _adapters E (platform sub) with
    | Some _ =>
        map (fun e => (sub_id_ sub, entry_id_ e))
            (get_unsent_entries_for_subscription (db st) (sub_id_ sub) 10)
    | None => []
    end.
Proof.
  cbn zeta.
  destruct (dispatch_to_subscription_spec E sub st) as (_ & _ & _ & H).
  destruct (_adapters E (platform sub)) as [adapter|] eqn:Ha.
  - now apply (H adapter).
  - unfold _dispatch_to_subscription. rewrite Ha. reflexivity.
Qed.

Lemma turn_events_unique sub (st : Sys World) :
  NoDup (map entry_id_ (feed_entries (db st))) ->
  NoDup (map (fun ev => fst ev)
             (snd (fst (_dispatch_to_subscription E sub st)))).
Proof.
  intros H. pose proof (turn_events sub st) as Hev. cbn zeta in Hev.
  rewrite Hev. destruct (_adapters E (platform sub)); [|constructor].
  rewrite <- (map_map entry_id_ (fun i => (sub_id_ sub, i))).
  apply NoDup_pair_left. now apply unsent_query_ids_unique.
Qed.

Lemma dispatch_each_unique subs : forall st : Sys World,
  NoDup (map sub_id_ subs) ->
  NoDup (map entry_id_ (feed_entries (db st))) ->
  let r := dispatch_each E subs st in
  NoDup (map (fun ev => fst ev) (snd (fst r))) /\
  (forall ev, In ev (snd (fst r)) -> In (fst (fst ev)) (map sub_id_ subs)).
Proof.
  induction subs as [|sub rest IH]; intros st Hsubs Hids; cbn zeta.
  - cbn. split; [constructor|intros ev []].
  - cbn [dispatch_each]. rewrite bind_run.
    pose proof (turn_events_unique sub st Hids) as Hu.
    destruct (dispatch_to_subscription_spec E sub st) as (H1 & _ & H3 & _).
    destruct (_dispatch_to_subscription E sub st) as [[sent events] st1].
    cbn [fst snd] in *. rewrite bind_run.
    inversion Hsubs as [|? ? Hn Hd]; subst.
    destruct (IH st1 Hd) as (I1 & I2).
    { now rewrite (ledger_grows_ids H1). }
    destruct (dispatch_each E rest st1) as [[sent' events'] st2].
    cbn [fst snd ret map] in *. split.
    + rewrite map_app. apply NoDup_app_intro; auto.
      intros k Hk Hk'. apply in_map_iff in Hk, Hk'.
      destruct Hk as [ev [<- Hev]], Hk' as [ev' [Heq Hev']].
      apply Hn. destruct (H3 ev Hev) as [<- _].
      rewrite <- Heq. now apply I2.
    + intros ev Hev. apply in_app_iff in Hev. destruct Hev as [Hev|Hev].
      * left. symmetry. now apply H3.
      * right. now apply I2.
Qed.

End ReceiptsUnique.

(** X17.  A dispatch cycle keeps the primary keys and the receipt ledger
    free of duplicates: started on a database whose entry ids, subscription
    ids and (subscription, entry) receipt pairs are unique, [dispatch_once]
    ends on one where they still are.  In particular no pair ever gets a
    second receipt, whatever the feeds and the adapters answer. *)
Theorem dispatch_once_keeps_keys_unique
        (World : Type) (E : Env World) (st : Sys World)
        (Hunique : keys_unique (db st)) :
  keys_unique (db (snd (Dispatcher.dispatch_once E st))).
Proof.
  destruct Hunique as (Hids & Hsubs & Hrec).
  destruct (dispatch_once_spec E st) as [(new & Hn & Hk & _) Hstart].
  cbn zeta in *. revert Hn Hk Hstart. unfold Dispatcher.dispatch_once.
  pose proof (fetch_all_feeds_ledger E st) as [Hs1 _].
  assert (Hids1 : NoDup (map entry_id_
            (feed_entries (db (snd (FeedService.fetch_all_feeds E st)))))).
  { unfold FeedService.fetch_all_feeds. rewrite bind_run. unfold query.
    cbn [fst snd].
    destruct (fetch_each_entries E
                (FeedRepository.get_all_active_feeds (db st)) st)
      as (_ & _ & _ & Hi).
    auto. }
  destruct (FeedService.fetch_all_feeds E st) as [frs st1].
  cbn [snd] in *.
  destruct (Dispatcher.collect_new_entries frs) as [|e0 fresh].
  - cbn [fst snd db]. intros _ _ _. repeat split; assumption.
  - unfold query.
    destruct (dispatch_each_spec E
                (SubscriptionRepository.get_all_active_subscriptions (db st1))
                st1) as (H1 & _ & _).
    destruct (@dispatch_each_unique World E
                (SubscriptionRepository.get_all_active_subscriptions (db st1))
                st1) as (U1 & _).
    { unfold SubscriptionRepository.get_all_active_subscriptions.
      apply NoDup_map_filter. now rewrite Hs1. }
    { exact Hids1. }
    destruct (Dispatcher.dispatch_each E
                (SubscriptionRepository.get_all_active_subscriptions (db st1))
                st1) as [[sent events] st3].
    cbn [fst snd] in *. intros Hn Hk Hstart.
    split; [|split].
    + now rewrite (ledger_grows_ids H1).
    + destruct H1 as (_ & _ & _ & _ & Hs3 & _). now rewrite Hs3, Hs1.
    + rewrite Hn, map_app. apply NoDup_app_intro; auto.
      * rewrite Hk. unfold successful. now apply NoDup_map_filter.
      * intros k Hin Hin'. rewrite Hk in Hin'.
        destruct k as [sid eid]. apply successful_In in Hin'.
        apply Hstart in Hin'. cbn [fst snd] in Hin'.
        apply is_entry_sent_false in Hin'. contradiction.
Qed.


(** X19.  No replay across cycles: an entry whose send to a subscription
    succeeded in one dispatch cycle is not offered to that subscription's
    adapter at all in the next cycle, whatever the feeds and the
    environment of that next cycle are. *)
Theorem delivered_entry_not_sent_again
        (World : Type) (E E' : Env World) (st : Sys World) (sid eid : Z)
        (Hdelivered : In (sid, eid, Some true)
                         (snd (fst (Dispatcher.dispatch_once E st)))) :
  forall o,
    ~ In (sid, eid, o)
         (snd (fst (Dispatcher.dispatch_once E'
                      (snd (Dispatcher.dispatch_once E st))))).
Proof.
  intros o Hagain.
  destruct (dispatch_once_spec E st) as [(new & Hn & Hk & _) _].
  destruct (dispatch_once_spec E' (snd (Dispatcher.dispatch_once E st)))
    as [_ Hstart].
  cbn zeta in *. apply Hstart in Hagain. cbn [fst snd] in Hagain.
  apply is_entry_sent_false in Hagain. apply Hagain.
  rewrite Hn, map_app, in_app_iff. right. rewrite Hk.
  now apply successful_In.
Qed.

(** ** The janitors *)

Lemma filter_partition_length {A} (p : A -> bool) l :
  Z.of_nat (List.length l) - Z.of_nat (List.length (filter (fun x => negb (p x)) l))
  = Z.of_nat (List.length (filter p l)).
Proof.
  induction l as [|a l IH]; cbn [filter List.length]; [reflexivity|].
  destruct (p a); cbn [negb List.length]; lia.
Qed.

Lemma filter_all_kept {A} (p : A -> bool) l :
  (forall x, In x l -> p x = true) -> filter p l = l.
Proof.
  induction l as [|a l IH]; cbn; [reflexivity|]. intros H.
  rewrite (H a (or_introl eq_refl)), IH; auto.
Qed.

(** X20.  [cleanup_old_entries] deletes exactly the entries created before
    the cutoff [now - days], reports how many those are, and keeps the
    others in their order; run again with a cutoff that is no later, it
    deletes nothing more and reports zero. *)
Theorem cleanup_old_entries_outcome
        (now days now' days' : Z) (s : Store)
        (Hcutoff : now' - days_to_seconds days'
                   <= now - days_to_seconds days) :
  let r := FeedRepository.cleanup_old_entries now days s in
  let r' := FeedRepository.cleanup_old_entries now' days' (snd r) in
  (forall e, In e (feed_entries (snd r)) <->
             In e (feed_entries s) /\
             now - days_to_seconds days <= entry_created_at e) /\
  fst r = Z.of_nat (List.length
                      (filter (fun e => entry_created_at e
                                        <? now - days_to_seconds days)
                              (feed_entries s))) /\
  feeds (snd r) = feeds s /\
  subscriptions (snd r) = subscriptions s /\
  fst r' = 0 /\ snd r' = snd r.
Proof.
  cbn zeta. unfold FeedRepository.cleanup_old_entries.
  cbn [fst snd FeedRepository.with_feed_entries feeds feed_entries
       subscriptions sent_entries].
  split; [|split; [|split; [|split]]]; try reflexivity.
  - intros e. rewrite filter_In, negb_true_iff, Z.ltb_ge. reflexivity.
  - apply (filter_partition_length
             (fun e => entry_created_at e <? now - days_to_seconds days)).
  - rewrite (@filter_all_kept _
               (fun e => negb (entry_created_at e
                               <? now' - days_to_seconds days'))).
    + split; [lia|reflexivity].
    + intros e He. apply filter_In in He. destruct He as [_ He].
      apply negb_true_iff in He. apply negb_true_iff.
      apply Z.ltb_ge. apply Z.ltb_ge in He. lia.
Qed.

(** X21.  [cleanup_old_sent_entries] deletes exactly the receipts sent
    before the cutoff and touches no other table.  It never makes a pair
    count as sent, but it does make pairs unsent: an entry still stored,
    of the feed a subscription follows, whose receipts for that
    subscription are all older than the cutoff, is eligible for the
    subscription's unsent query again after the cleanup. *)
Theorem cleanup_old_sent_entries_forgets
        (now days : Z) (s : Store) (sub : Subscription) (e : FeedEntry)
        (Hfeed : entry_feed_id e = sub_feed_id sub)
        (Hold : forall r, In r (sent_entries s) ->
                          receipt_key r = (sub_id_ sub, entry_id_ e) ->
                          sent_at r < now - days_to_seconds days) :
  let r := SubscriptionRepository.cleanup_old_sent_entries now days s in
  (forall x, In x (sent_entries (snd r)) <->
             In x (sent_entries s) /\
             now - days_to_seconds days <= sent_at x) /\
  fst r = Z.of_nat (List.length
                      (filter (fun x => sent_at x
                                        <? now - days_to_seconds days)
                              (sent_entries s))) /\
  feeds (snd r) = feeds s /\
  feed_entries (snd r) = feed_entries s /\
  subscriptions (snd r) = subscriptions s /\
  (forall sid eid,
      SubscriptionRepository.is_entry_sent (snd r) sid eid = true ->
      SubscriptionRepository.is_entry_sent s sid eid = true) /\
  eligible (snd r) sub e = true.
Proof.
  cbn zeta. unfold SubscriptionRepository.cleanup_old_sent_entries.
  cbn [fst snd SubscriptionRepository.with_sent_entries feeds feed_entries
       subscriptions sent_entries].
  assert (Hkept : forall x,
    In x (filter (fun r => negb (sent_at r <? now - days_to_seconds days))
                 (sent_entries s)) <->
    In x (sent_entries s) /\ now - days_to_seconds days <= sent_at x).
  { intros x. rewrite filter_In, negb_true_iff, Z.ltb_ge. reflexivity. }
  split; [exact Hkept|]. split.
  { apply (filter_partition_length
             (fun x => sent_at x <? now - days_to_seconds days)). }
  split; [reflexivity|]. split; [reflexivity|]. split; [reflexivity|]. split.
  - intros sid eid H. apply is_entry_sent_In. apply is_entry_sent_In in H.
    cbn [sent_entries] in H. apply in_map_iff in H.
    destruct H as [x [Hk Hx]]. apply Hkept in Hx.
    apply in_map_iff. exists x. tauto.
  - unfold eligible. rewrite Hfeed, Z.eqb_refl. cbn [andb].
    apply negb_true_iff, is_entry_sent_false. cbn [sent_entries].
    intros H. apply in_map_iff in H. destruct H as [x [Hk Hx]].
    apply Hkept in Hx. destruct Hx as [Hx Hat].
    specialize (Hold x Hx Hk). lia.
Qed.

(** X22.  Run together, the two janitors do not cause a resend: when every
    receipt is stamped no earlier than its entry was created and the
    receipts' cutoff is no later than the entries' cutoff, each entry that
    survives [cleanup_old_entries] has after [cleanup_old_sent_entries]
    the sent status, for every subscription, that it had before. *)
Theorem janitors_keep_sent_status
        (now days now' days' : Z) (s : Store)
        (Hstamps : forall r e,
            In r (sent_entries s) -> In e (feed_entries s) ->
            entry_id r = entry_id_ e -> entry_created_at e <= sent_at r)
        (Hcutoffs : now' - days_to_seconds days'
                    <= now - days_to_seconds days) :
  let s1 := snd (FeedRepository.cleanup_old_entries now days s) in
  let s2 := snd (SubscriptionRepository.cleanup_old_sent_entries
                   now' days' s1) in
  forall e sid,
    In e (feed_entries s2) ->
    SubscriptionRepository.is_entry_sent s2 sid (entry_id_ e)
    = SubscriptionRepository.is_entry_sent s sid (entry_id_ e).
Proof.
  cbn zeta. intros e sid.
  unfold SubscriptionRepository.cleanup_old_sent_entries,
    FeedRepository.cleanup_old_entries.
  cbn [fst snd SubscriptionRepository.with_sent_entries
       FeedRepository.with_feed_entries feeds feed_entries
       subscriptions sent_entries].
  intros He. apply filter_In in He. destruct He as [He Hnew].
  apply negb_true_iff, Z.ltb_ge in Hnew.
  apply bool_eq_iff. rewrite !is_entry_sent_In.
  cbn [sent_entries]. rewrite !in_map_iff. split.
  - intros [x [Hk Hx]]. apply filter_In in Hx. exists x. tauto.
  - intros [x [Hk Hx]]. exists x. split; [exact Hk|].
    apply filter_In. split; [exact Hx|].
    apply negb_true_iff, Z.ltb_ge.
    assert (Hid : entry_id x = entry_id_ e)
      by (unfold receipt_key in Hk; congruence).
    specialize (Hstamps x e Hx He Hid). lia.
Qed.

(** ** Text helpers *)

Section TextFacts.

Import ContentProcessor Telegram.






Lemma prefix_empty s : String.prefix "" s = true.
Proof. destruct s; reflexivity. Qed.





Lemma string_app_assoc (a b c : string) :
  (a ++ (b ++ c))%string = ((a ++ b) ++ c)%string.
Proof. induction a as [|x a IH]; cbn; [reflexivity|]. now rewrite IH. Qed.

Lemma replace_char_app old new a b :
  replace_char old new (a ++ b)%string
  = (replace_char old new a ++ replace_char old new b)%string.
Proof.
  induction a as [|c a IH]; cbn; [reflexivity|].
  destruct (Ascii.eqb c old); cbn; rewrite IH; [|reflexivity].
  apply string_app_assoc.
Qed.

(** [_escape_html] one character at a time. *)
Lemma escape_html_cons c s :
  _escape_html (String c s)
  = ((if Ascii.eqb c "&" then "&amp;"
      else if Ascii.eqb c "<" then "&lt;"
      else if Ascii.eqb c ">" then "&gt;"
      else String c "") ++ _escape_html s)%string.
Proof.
  unfold _escape_html. cbn [replace_char].
  destruct (Ascii.eqb c "&") eqn:Ha.
  - rewrite !replace_char_app. reflexivity.
  - cbn [replace_char]. destruct (Ascii.eqb c "<") eqn:Hl.
    + rewrite !replace_char_app. reflexivity.
    + cbn [replace_char]. destruct (Ascii.eqb c ">"); reflexivity.
Qed.

Lemma occurs_app ch a b :
  occurs ch (a ++ b)%string = occurs ch a || occurs ch b.
Proof.
  induction a as [|c a IH]; cbn; [reflexivity|].
  now rewrite IH, orb_assoc.
Qed.

End TextFacts.



(** X25.  [_escape_html] leaves no angle bracket in its output, and it
    loses nothing: undoing the three entities gives the text back, also
    when the text already held entities or ampersands. *)
Theorem escape_html_safe_and_reversible (text : string) :
  occurs "<" (Telegram._escape_html text) = false /\
  occurs ">" (Telegram._escape_html text) = false /\
  unescape_html (Telegram._escape_html text) = text.
Proof.
  induction text as [|c s (IH1 & IH2 & IH3)]; [repeat split|].
  rewrite escape_html_cons.
  destruct (Ascii.eqb c "&") eqn:Ha;
    [apply Ascii.eqb_eq in Ha; subst c|
     destruct (Ascii.eqb c "<") eqn:Hl;
     [apply Ascii.eqb_eq in Hl; subst c|
      destruct (Ascii.eqb c ">") eqn:Hg;
      [apply Ascii.eqb_eq in Hg; subst c|]]].
  - rewrite !occurs_app, IH1, IH2. repeat split. cbn. now rewrite IH3.
  - rewrite !occurs_app, IH1, IH2. repeat split. cbn. now rewrite IH3.
  - rewrite !occurs_app, IH1, IH2. repeat split. cbn. now rewrite IH3.
  - rewrite !occurs_app, IH1, IH2. cbn [occurs append].
    rewrite Hl, Hg. repeat split.
    destruct c as [[] [] [] [] [] [] [] []];
      try discriminate; cbn; now rewrite IH3.
Qed.

(** ** Parsing an entry *)

Section EntryParsing.

Import FeedFetcher.

Lemma truthy_or_empty o : truthy o = true -> or_empty o <> "".
Proof. destruct o as [[|c s]|]; cbn; congruence. Qed.





End EntryParsing.

(** X26.  The guid [_parse_entry] gives an entry is never empty: it is the
    first of [id], [guid] and [link] that is present and not empty, and
    the text [title-published] (at least the dash) when none is. *)
Theorem entry_guid_never_empty
        (_parse_date : FeedFetcher.RawEntry -> option Z)
        (entry : FeedFetcher.RawEntry) (feed_url : string) :
  let guid := data_guid (FeedFetcher._parse_entry _parse_date entry
                           feed_url) in
  guid <> "" /\
  (truthy (FeedFetcher.raw_id entry) = true ->
   Some guid = FeedFetcher.raw_id entry) /\
  (truthy (FeedFetcher.raw_id entry) = false ->
   truthy (FeedFetcher.raw_guid entry) = true ->
   Some guid = FeedFetcher.raw_guid entry) /\
  (truthy (FeedFetcher.raw_id entry) = false ->
   truthy (FeedFetcher.raw_guid entry) = false ->
   truthy (FeedFetcher.raw_link entry) = true ->
   Some guid = FeedFetcher.raw_link entry) /\
  (truthy (FeedFetcher.raw_id entry) = false ->
   truthy (FeedFetcher.raw_guid entry) = false ->
   truthy (FeedFetcher.raw_link entry) = false ->
   guid = (or_empty (FeedFetcher.raw_title entry) ++ "-"
             ++ or_empty (FeedFetcher.raw_published entry))%string).
Proof.
  cbn zeta. cbn [FeedFetcher._parse_entry data_guid].
  unfold FeedFetcher.entry_guid, or_else.
  destruct (FeedFetcher.raw_id entry) as [[|c1 s1]|];
    destruct (FeedFetcher.raw_guid entry) as [[|c2 s2]|];
    destruct (FeedFetcher.raw_link entry) as [[|c3 s3]|];
    cbn; repeat split; try congruence;
    destruct (FeedFetcher.raw_title entry) as [[|c4 s4]|]; cbn; congruence.
Qed.


(** X28.  The translation factory builds a provider exactly when the
    settings say translation can be used, and then the one the settings
    name, with that provider's own key: its closing branch for missing
    credentials is never reached. *)
Theorem factory_agrees_with_can_translate (settings : Config.Settings) :
  (Config.create_translation_provider settings = None <->
   Config.can_translate settings = false) /\
  (Config.can_translate settings = true ->
   Config.create_translation_provider settings
   = Some (match Config.translation_provider settings with
           | Config.deepl =>
               Config.DeepLProvider (Config.deepl_api_key settings)
           | Config.openai =>
               Config.OpenAIProvider (Config.openai_api_key settings)
                 (Config.openai_model settings)
                 (Config.openai_base_url settings)
           | Config.google =>
               Config.GoogleProvider
                 (Config.google_credentials_path settings)
                 (Config.google_project_id settings)
           end) /\
   truthy (Config.get_translation_api_key settings) = true /\
   Config.translation_enabled settings = true).
Proof.
  unfold Config.create_translation_provider, Config.can_translate,
    Config.get_translation_api_key.
  destruct (Config.translation_enabled settings); cbn [negb];
    [|split; [split; reflexivity|discriminate]].
  destruct (Config.translation_provider settings); cbn [Config.provider_eqb].
  - destruct (truthy (Config.google_credentials_path settings)); cbn;
      split; try split; try discriminate; auto.
  - destruct (truthy (Config.deepl_api_key settings)); cbn;
      split; try split; try discriminate; auto.
  - destruct (truthy (Config.openai_api_key settings)); cbn;
      split; try split; try discriminate; auto.
Qed.

(** ** The properties at work on concrete installations *)

Lemma cache_set_within_capacity_witness :
  fst (Cache.set 100 "c" "3" (Some 60) Examples.small_cache) = Some true /\
  Cache.size (snd (Cache.set 100 "c" "3" (Some 60) Examples.small_cache))
  <= 2.
Proof.
  pose proof (@cache_set_within_capacity 100 "c" "3" (Some 60)
                Examples.small_cache) as H.
  destruct H as (H1 & H2 & _).
  - vm_compute. discriminate.
  - split; [exact H1|exact H2].
Defined.

Lemma cache_set_without_capacity_witness :
  fst (Cache.set 100 "c" "3" None Examples.no_cache) = None.
Proof.
  pose proof (@cache_set_without_capacity 100 "c" "3" None
                Examples.no_cache) as H.
  destruct H as (H1 & _).
  - vm_compute. discriminate.
  - exact H1.
Defined.

Lemma cache_read_item_survives_next_set_witness :
  Cache.lookup "a"
    (Cache._cache (snd (Cache.set 20 "c" "3" None
                          (snd (Cache.get 10 "a" Examples.small_cache)))))
  = Some ("1", None).
Proof.
  pose proof (@cache_read_item_survives_next_set 10 20 "a" "c" "1" "3" None
                Examples.small_cache) as H.
  destruct H as (H1 & _).
  - vm_compute. reflexivity.
  - discriminate.
  - vm_compute. discriminate.
  - rewrite H1. reflexivity.
Defined.



Lemma failed_fetch_recorded_on_feed_witness :
  map error_count
      (feeds (db (snd (FeedService.fetch_and_store Examples.env_down
                         Scenario.feed1 Scenario.st0))))
  = [1].
Proof.
  pose proof (@failed_fetch_recorded_on_feed Scenario.World Examples.env_down
                Scenario.feed1 Scenario.st0 TimeoutError 1%nat) as H.
  cbn zeta in H. destruct H as (_ & _ & _ & H & _).
  - reflexivity.
  - vm_compute. reflexivity.
  - rewrite H. reflexivity.
Defined.

Lemma entries_stay_unique_witness :
  NoDup (map entry_id_
           (feed_entries (db (snd (FeedService.fetch_all_feeds
                                     Scenario.env_busy Examples.st3))))).
Proof.
  assert (Hk : NoDup (map entry_key (feed_entries (db Examples.st3)))).
  { vm_compute.
    repeat (constructor;
            [intros H; repeat (destruct H as [H|H]; [discriminate|]);
             exact H|]).
    constructor. }
  assert (Hi : NoDup (map entry_id_ (feed_entries (db Examples.st3)))).
  { vm_compute.
    repeat (constructor;
            [intros H; repeat (destruct H as [H|H]; [discriminate|]);
             exact H|]).
    constructor. }
  exact (proj2 (proj2 (@entries_stay_unique Scenario.World Scenario.env_busy
                         Examples.st3 Hk Hi))).
Defined.

Lemma subscribe_failure_changes_nothing_witness :
  db (snd (SubscriptionService.subscribe Examples.env_down "discord" "1"
             "43" "https://example.org/other" None Scenario.st0))
  = db Scenario.st0.
Proof.
  apply (@subscribe_failure_changes_nothing Scenario.World Examples.env_down
           Scenario.st0 "discord" "1" "43" "https://example.org/other" None).
  vm_compute. reflexivity.
Defined.

Lemma subscribe_twice_keeps_one_row_witness :
  SubscriptionService.is_new
    (fst (SubscriptionService.subscribe Scenario.env_quiet "discord" "2" "43"
            Scenario.feed_url None
            (snd (SubscriptionService.subscribe Scenario.env_quiet "discord"
                    "1" "43" Scenario.feed_url None Scenario.st0))))
  = false.
Proof.
  pose proof (@subscribe_twice_keeps_one_row Scenario.World Scenario.env_quiet
                Scenario.st0 "discord" "1" "2" "43" Scenario.feed_url
                None None) as H.
  cbn zeta in H. destruct H as (_ & H & _).
  - vm_compute. reflexivity.
  - left. vm_compute. discriminate.
  - exact H.
Defined.

Lemma update_settings_reaches_whole_channel_witness :
  map translate
      (subscriptions
         (db (snd (SubscriptionService.update_settings Scenario.env_quiet
                     "discord" "42" None (Some true) None Scenario.st0))))
  = [true].
Proof.
  pose proof (@update_settings_reaches_whole_channel Scenario.World
                Scenario.env_quiet Scenario.st0 "discord" "42" None
                (Some true) None) as H.
  cbn zeta in H. destruct H as (H & _).
  - reflexivity.
  - reflexivity.
  - vm_compute. constructor; [intros []|constructor].
  - rewrite H. reflexivity.
Defined.

Lemma deactivated_subscription_is_reused_witness :
  sub_id_ (fst (fst (SubscriptionRepository.get_or_create_subscription
                       20 "discord" "1" "42" 1 None
                       (snd (SubscriptionRepository.deactivate_subscription
                               10 "discord" "42" 1 Scenario.store0)))))
  = 1.
Proof.
  pose proof (@deactivated_subscription_is_reused 10 20 "discord" "1" "42" 1
                None Scenario.store0 Scenario.sub1) as H.
  cbn zeta in H. destruct H as (_ & _ & _ & _ & H & _).
  - vm_compute. reflexivity.
  - rewrite H. reflexivity.
Defined.

Lemma dispatch_once_keeps_keys_unique_witness :
  keys_unique
    (db (snd (Dispatcher.dispatch_once Scenario.env_busy Examples.st3))).
Proof.
  apply (@dispatch_once_keeps_keys_unique Scenario.World Scenario.env_busy
           Examples.st3).
  vm_compute. repeat split;
    repeat (constructor;
            [intros H; repeat (destruct H as [H|H]; [discriminate|]);
             exact H|]);
    constructor.
Defined.

Lemma delivered_entry_not_sent_again_witness :
  ~ In (1, 1, Some true)
       (snd (fst (Dispatcher.dispatch_once Scenario.env_busy
                    (snd (Dispatcher.dispatch_once Scenario.env_busy
                            Scenario.st1))))).
Proof.
  apply (@delivered_entry_not_sent_again Scenario.World Scenario.env_busy
           Scenario.env_busy Scenario.st1 1 1).
  vm_compute. left. reflexivity.
Defined.

Lemma cleanup_old_entries_outcome_witness :
  fst (FeedRepository.cleanup_old_entries 1000000 7 Scenario.store3) = 4.
Proof.
  pose proof (@cleanup_old_entries_outcome 1000000 7 1000000 7
                Scenario.store3) as H.
  cbn zeta in H. destruct H as (_ & H & _).
  - vm_compute. discriminate.
  - rewrite H. reflexivity.
Defined.

Lemma cleanup_old_sent_entries_forgets_witness :
  eligible
    (snd (SubscriptionRepository.cleanup_old_sent_entries 1000000 7
            Scenario.store3))
    Scenario.sub1
    (FeedRepository.new_entry 5 4 1 (Scenario.item "C" 300))
  = true.
Proof.
  pose proof (@cleanup_old_sent_entries_forgets 1000000 7 Scenario.store3
                Scenario.sub1
                (FeedRepository.new_entry 5 4 1 (Scenario.item "C" 300)))
    as H.
  cbn zeta in H. destruct H as (_ & _ & _ & _ & _ & _ & H).
  - reflexivity.
  - intros r [<-|[]] _. vm_compute. reflexivity.
  - exact H.
Defined.

Lemma janitors_keep_sent_status_witness :
  SubscriptionRepository.is_entry_sent
    (snd (SubscriptionRepository.cleanup_old_sent_entries 9 7
            (snd (FeedRepository.cleanup_old_entries 9 7
                    Scenario.store3))))
    1 4
  = true.
Proof.
  assert (Hstamps : forall r e,
             In r (sent_entries Scenario.store3) ->
             In e (feed_entries Scenario.store3) ->
             entry_id r = entry_id_ e -> entry_created_at e <= sent_at r).
  { intros r e [<-|[]] He _.
    repeat (destruct He as [<-|He]; [vm_compute; discriminate|]).
    destruct He. }
  assert (Hcutoffs : 9 - days_to_seconds 7 <= 9 - days_to_seconds 7)
    by (vm_compute; discriminate).
  assert (Hkept :
    In (FeedRepository.new_entry 5 4 1 (Scenario.item "C" 300))
       (feed_entries
          (snd (SubscriptionRepository.cleanup_old_sent_entries 9 7
                  (snd (FeedRepository.cleanup_old_entries 9 7
                          Scenario.store3))))))
    by (vm_compute; right; right; right; left; reflexivity).
  exact (eq_trans
           (@janitors_keep_sent_status 9 7 9 7 Scenario.store3 Hstamps
              Hcutoffs (FeedRepository.new_entry 5 4 1 (Scenario.item "C" 300))
              1 Hkept)
           eq_refl).
Defined.


